(** * Audio summarizer: the two Lambda handlers and the transcript normalizer

    A shallow embedding of
      - [lambda/eventbridge-bedrock-inference/lambda_function.py]
        ([convert_to_txt_file] and [lambda_handler]), in [Module Summarizer];
      - [lambda/s3-trigger-transcribe/lambda_function.py] ([lambda_handler]),
        in [Module Ingest];
      - the event pattern of [summarizer/summarizer_stack.py], in
        [Module Stack].

    Conventions.  A Python [str] is a Rocq [string]; one [ascii] stands for
    one code point below 256.  A Python call either returns or raises, which
    is the type [outcome].  Calls to the AWS services are answered by an
    oracle ([services]) that sees the calls made so far, and are recorded in
    order in a trace.  Logging is not modelled. *)

From Stdlib Require Import String Ascii List Bool Arith ZArith Lia.
Import ListNotations.
Local Open Scope string_scope.

Set Implicit Arguments.

(** ** Python values and built-ins used by the handlers *)

Module Py.

(** Exceptions that can reach the code under study.  [ClientError] is
    botocore's; [Exception_] is any other subclass of [Exception] a
    service call may raise.  [UnboundLocalError] is a subclass of
    [NameError]. *)
Inductive exn : Type :=
| JSONDecodeError
| UnboundLocalError (name : string)
| TypeError (msg : string)
| KeyError (key : string)
| IndexError
| ClientError (msg : string)
| Exception_ (msg : string).

Definition is_NameError (e : exn) : bool :=
  match e with UnboundLocalError _ => true | _ => false end.

Definition is_ClientError (e : exn) : bool :=
  match e with ClientError _ => true | _ => false end.

(** [str(e)] *)
Definition str_exn (e : exn) : string :=
  match e with
  | JSONDecodeError => "JSONDecodeError"
  | UnboundLocalError n =>
      "cannot access local variable '" ++ n
        ++ "' where it is not associated with a value"
  | TypeError m => m
  | KeyError k => "'" ++ k ++ "'"
  | IndexError => "list index out of range"
  | ClientError m => m
  | Exception_ m => m
  end.

Inductive outcome (A : Type) : Type :=
| Return (a : A)
| Raise (e : exn).
Arguments Raise {A} e.

(** Truth value of a [str]: non-empty. *)
Definition truthy (s : string) : bool :=
  match s with EmptyString => false | String _ _ => true end.

(** [str.isspace] on one code point below 256. *)
Definition isspace (c : ascii) : bool :=
  let n := nat_of_ascii c in
  (((9 <=? n) && (n <=? 13)) || ((28 <=? n) && (n <=? 32))
   || (n =? 133) || (n =? 160))%nat.

Fixpoint lstrip (s : string) : string :=
  match s with
  | EmptyString => EmptyString
  | String c r => if isspace c then lstrip r else s
  end.

Fixpoint rstrip (s : string) : string :=
  match s with
  | EmptyString => EmptyString
  | String c r =>
      match rstrip r with
      | EmptyString => if isspace c then EmptyString else String c EmptyString
      | r' => String c r'
      end
  end.

(** [str.strip()] with no argument. *)
Definition strip (s : string) : string := rstrip (lstrip s).

(** How an f-string renders a value that is a [str] or [None]. *)
Definition format_opt (v : option string) : string :=
  match v with Some s => s | None => "None" end.

(** [a != b] where [a] is a [str] and [b] a [str] or [None]. *)
Definition str_ne (a : string) (b : option string) : bool :=
  match b with
  | Some b' => negb (String.eqb a b')
  | None => true
  end.

Definition newline : string := String (ascii_of_nat 10) EmptyString.

(** [s.rfind(c)] for a one-character [c]: the highest index, or -1. *)
Fixpoint rfind_from (c : ascii) (s : string) (i : Z) (found : Z) : Z :=
  match s with
  | EmptyString => found
  | String a r => rfind_from c r (i + 1) (if Ascii.eqb a c then i else found)
  end.

Definition rfind (c : ascii) (s : string) : Z := rfind_from c s 0 (-1).

(** [genericpath._splitext(p, sep, None, extsep)]: the loop that skips the
    leading dots of the last component. *)
Fixpoint splitext_scan (fuel : nat) (p : string) (filenameIndex dotIndex : nat)
  : string * string :=
  match fuel with
  | O => (p, EmptyString)
  | S fuel' =>
      if (filenameIndex <? dotIndex)%nat then
        if negb (String.eqb (substring filenameIndex 1 p) ".") then
          (substring 0 dotIndex p,
           substring dotIndex (String.length p - dotIndex) p)
        else splitext_scan fuel' p (filenameIndex + 1) dotIndex
      else (p, EmptyString)
  end.

(** [os.path.splitext] of [posixpath]: [sep] is "/", [extsep] is ".". *)
Definition splitext (p : string) : string * string :=
  let sepIndex := rfind "/"%char p in
  let dotIndex := rfind "."%char p in
  if (dotIndex >? sepIndex)%Z then
    splitext_scan (S (String.length p)) p
      (Z.to_nat (sepIndex + 1)) (Z.to_nat dotIndex)
  else (p, EmptyString).

End Py.
Import Py.

(** ** Service calls: a trace of calls and an exception *)

Module Effect.

Section WithCalls.

(** The calls a handler can make on the AWS clients. *)
Variable call : Type.

(** A computation starts from the calls made so far and gives the calls
    made when it stops, with its value or the exception it raised. *)
Definition M (A : Type) : Type := list call -> list call * outcome A.

Definition ret {A} (a : A) : M A := fun tr => (tr, Return a).

Definition throw {A} (e : exn) : M A := fun tr => (tr, Raise e).

Definition bind {A B} (m : M A) (k : A -> M B) : M B :=
  fun tr =>
    match m tr with
    | (tr', Return a) => k a tr'
    | (tr', Raise e) => (tr', Raise e)
    end.

(** A client call [c], answered by the service from the earlier calls. *)
Definition perform {A} (c : call) (answer : list call -> outcome A) : M A :=
  fun tr => ((tr ++ [c])%list, answer tr).

(** A pure Python expression that may raise. *)
Definition lift {A} (o : outcome A) : M A := fun tr => (tr, o).

(** [try: m  except <caught> as e: handler e] *)
Definition try_except {A} (m : M A) (caught : exn -> bool)
           (handler : exn -> M A) : M A :=
  fun tr =>
    match m tr with
    | (tr', Raise e) => if caught e then handler e tr' else (tr', Raise e)
    | r => r
    end.

(** One invocation: no call has been made yet. *)
Definition run {A} (m : M A) : list call * outcome A := m [].

End WithCalls.

Arguments ret {call A} a.
Arguments throw {call A} e.
Arguments lift {call A} o.

Module Notations.
Notation "x <- m ;; k" := (bind m (fun x => k))
  (at level 61, m at next level, right associativity).
Notation "m ;;; k" := (bind m (fun _ => k))
  (at level 61, right associativity).
End Notations.

End Effect.
Import Effect Effect.Notations.

(** A handler's result: the dictionary with [statusCode] and [body]. *)
Record response : Type := { statusCode : nat; body : string }.

(** ** The summarizer Lambda: transcript normalizer *)

Module Summarizer.

(** One element of [results.items] of a Transcribe document.  A
    pronunciation item carries [alternatives[0].content] and
    [speaker_label]; a punctuation item carries the content only; an item
    of any other [type] is skipped by the loop. *)
Inductive item : Type :=
| Pronunciation (content speaker_label : string)
| Punctuation (content : string)
| OtherType (type : string).

(** What [json.load] finds in the file: text that is not JSON, or a
    document in the Transcribe schema whose [results] may lack the
    [items] key. *)
Inductive json_file : Type :=
| NotJSON
| Document (items : option (list item)).

(** The local variables of [convert_to_txt_file] during the loop.
    [speaker_label] is [None] while the name is not bound; [output_file]
    is the sequence of [write] calls on the temporary file. *)
Record locals : Type := {
  current_speaker : option string;
  current_text : string;
  output : list string;
  output_file : list string;
  speaker_label : option string
}.

Definition initial : locals :=
  {| current_speaker := None; current_text := ""; output := [];
     output_file := []; speaker_label := None |}.

(** [f"{speaker}: {text.strip()}\n"] *)
Definition line (speaker : option string) (text : string) : string :=
  format_opt speaker ++ ": " ++ strip text ++ newline.

(** The body of the [for] loop. *)
Definition loop_body (st : locals) (it : item) : locals :=
  match it with
  | Pronunciation content label =>
      if str_ne label (current_speaker st) then
        let l := line (current_speaker st) (current_text st) in
        {| current_speaker := Some label;
           current_text := content;
           output :=
             if truthy (current_text st) then (output st ++ [l])%list else output st;
           output_file :=
             if truthy (current_text st) then (output_file st ++ [l])%list
             else output_file st;
           speaker_label := Some label |}
      else
        {| current_speaker := current_speaker st;
           current_text := current_text st ++ " " ++ content;
           output := output st;
           output_file := output_file st;
           speaker_label := Some label |}
  | Punctuation content =>
      {| current_speaker := current_speaker st;
         current_text := current_text st ++ content;
         output := output st;
         output_file := output_file st;
         speaker_label := speaker_label st |}
  | OtherType _ => st
  end.

Definition loop (items : list item) : locals :=
  fold_left loop_body items initial.

(** The statement after the loop: the last line, written with the name
    [speaker_label]. *)
Definition final_line (st : locals) : outcome locals :=
  if truthy (current_text st) then
    match speaker_label st with
    | Some label =>
        let l := line (Some label) (current_text st) in
        Return {| current_speaker := current_speaker st;
                  current_text := current_text st;
                  output := (output st ++ [l])%list;
                  output_file := (output_file st ++ [l])%list;
                  speaker_label := speaker_label st |}
    | None => Raise (UnboundLocalError "speaker_label")
    end
  else Return st.

(** Lines 40 to 63: the locals when the [with] block is left. *)
Definition convert_items (items : list item) : outcome locals :=
  final_line (loop items).

(** [data["results"].get("items", [])] *)
Definition get_items (items : option (list item)) : list item :=
  match items with Some l => l | None => [] end.

(** [convert_to_txt_file]: [output_path] is the name chosen by
    [tempfile.NamedTemporaryFile]; [f] is what the file at [json_file]
    holds.  The value is [None] or the pair (transcript, output path). *)
Definition convert_to_txt_file (output_path : string) (f : json_file)
  : outcome (option (string * string)) :=
  match f with
  | NotJSON => Return None
  | Document items =>
      match convert_items (get_items items) with
      | Return st => Return (Some (String.concat "" (output st), output_path))
      | Raise e => Raise e
      end
  end.

(** *** The handler *)

(** [event["detail"]] of a Transcribe job state change. *)
Record detail : Type := {
  TranscriptionJobName : string;
  TranscriptionJobStatus : string
}.

(** The JSON body sent to the model (the argument of [json.dumps]); the
    two floats are kept as their decimal text. *)
Record model_request : Type := {
  anthropic_version : string;
  max_tokens : nat;
  system : string;
  messages : list (string * list (string * string));
  temperature : string;
  top_p : string;
  top_k : nat
}.

(** [response["body"]] of [invoke_model]: its [str], and what
    [json.loads(body.read())["content"][0]["text"]] gives. *)
Record streaming_body : Type := {
  body_str : string;
  content_text : outcome string
}.

Record model_response : Type := {
  model_status : nat;
  model_body : option streaming_body
}.

Record put_response : Type := {
  put_status : nat;
  put_str : string
}.

Inductive call : Type :=
| GetTranscriptionJob (name : string)
| DownloadFile (Bucket Key Filename : string)
| UploadFile (Filename Bucket Key : string)
| InvokeModel (modelId : string) (request : model_request)
| PutObject (Body Bucket Key : string).

(** What the outside world answers.  [download_file] gives what the local
    file holds afterwards; [NamedTemporaryFile] is the name of the
    temporary file; [path_exists] is [os.path.exists]. *)
Record services : Type := {
  get_transcription_job : list call -> string -> outcome unit;
  download_file : list call -> string -> string -> string -> outcome json_file;
  NamedTemporaryFile : string;
  path_exists : string -> bool;
  upload_file : list call -> string -> string -> string -> outcome unit;
  invoke_model : list call -> string -> model_request -> outcome model_response;
  put_object : list call -> string -> string -> string -> outcome put_response
}.

(** [os.environ] as the stack sets it. *)
Record environ : Type := { OUTPUT_BUCKET : string }.

Definition dq : string := String (ascii_of_nat 34) EmptyString.

Definition indent : string := "            ".

(** The f-string of the prompt. *)
Definition prompt (transcript_content : string) : string :=
  "Summarize the following transcript into one or more clear and " ++ newline
  ++ indent ++ "readable paragraphs. Speakers in the transcript could be denoted by their name," ++ newline
  ++ indent ++ "or by " ++ dq ++ "spk_x" ++ dq ++ ", where `x` is a number. These represent distinct speakers in the " ++ newline
  ++ indent ++ "conversation. When you refer to a speaker, you may refer to them by " ++ dq ++ "Speaker 1" ++ dq ++ newline
  ++ indent ++ "in the case of " ++ dq ++ "spk_1" ++ dq ++ ", " ++ dq ++ "Speaker 2" ++ dq ++ " in the case of " ++ dq ++ "spk_2" ++ dq ++ ", and so forth. " ++ newline
  ++ indent ++ "When you summarize, capture any ideas discussed, any hot topics you identify, " ++ newline
  ++ indent ++ "or any other interesting parts of the conversation between the speakers. " ++ newline
  ++ indent ++ "At the end of your summary, give a bullet point list of the key action " ++ newline
  ++ indent ++ "items, to-do's, and followup activities:" ++ newline
  ++ indent ++ newline
  ++ indent ++ transcript_content ++ newline
  ++ indent.

Definition request_body (transcript_content : string) : model_request :=
  {| anthropic_version := "bedrock-2023-05-31";
     max_tokens := 2000;
     system := "You are an AI assistant that excels at summarizing conversations.";
     messages := [("user", [("text", prompt transcript_content)])];
     temperature := "1.0";
     top_p := "0.999";
     top_k := 40 |}.

Definition modelId : string := "anthropic.claude-3-sonnet-20240229-v1:0".

Definition any_exception (e : exn) : bool := true.

(** Lines 208 to 247: the model has answered. *)
Definition store_summary (w : services) (BUCKET transcription_job_name_txt : string)
           (r : model_response) : M call response :=
  if negb (model_status r =? 200)%nat then
    match model_body r with
    | Some b => ret {| statusCode := model_status r; body := body_str b |}
    | None => ret {| statusCode := model_status r;
                     body := "An unknown error occured." |}
    end
  else
    match model_body r with
    | None => throw (KeyError "body")
    | Some b =>
        summary <- lift (content_text b) ;;
        let processed_key := "processed/" ++ transcription_job_name_txt in
        s3_response <- perform (PutObject summary BUCKET processed_key)
                         (fun tr => put_object w tr summary BUCKET processed_key) ;;
        if negb (put_status s3_response =? 200)%nat then
          ret {| statusCode := put_status s3_response;
                 body := put_str s3_response |}
        else ret {| statusCode := 200; body := processed_key |}
    end.

(** Lines 137 to 206: the transcript has been converted. *)
Definition upload_and_summarize (w : services) (BUCKET transcription_job_name : string)
           (transcript_content transcript_output_file : string)
  : M call response :=
  let transcription_job_name_txt := transcription_job_name ++ ".txt" in
  let Key := "transcription/" ++ transcription_job_name_txt in
  uploaded <-
    try_except
      (perform (UploadFile transcript_output_file BUCKET Key)
         (fun tr => upload_file w tr transcript_output_file BUCKET Key) ;;;
       ret (@None response))
      any_exception
      (fun e =>
         ret (Some {| statusCode := 400;
                      body := "Error uploading converted file to s3://" ++ BUCKET
                              ++ "/transcription/" ++ transcription_job_name_txt
                              ++ ": " ++ str_exn e |})) ;;
  match uploaded with
  | Some early => ret early
  | None =>
      let request := request_body transcript_content in
      invoked <-
        try_except
          (r <- perform (InvokeModel modelId request)
                  (fun tr => invoke_model w tr modelId request) ;;
           ret (inr r))
          is_ClientError
          (fun e => ret (inl {| statusCode := 400; body := str_exn e |})) ;;
      match invoked with
      | inl early => ret early
      | inr r => store_summary w BUCKET transcription_job_name_txt r
      end
  end.

(** Lines 111 to 135, then the rest: the job is COMPLETED. *)
Definition completed (w : services) (BUCKET transcription_job_name : string)
  : M call response :=
  let Key := "transcription/" ++ transcription_job_name ++ ".json" in
  let Filename := "/tmp/" ++ transcription_job_name ++ ".json" in
  perform (GetTranscriptionJob transcription_job_name)
    (fun tr => get_transcription_job w tr transcription_job_name) ;;;
  downloaded <-
    try_except
      (f <- perform (DownloadFile BUCKET Key Filename)
              (fun tr => download_file w tr BUCKET Key Filename) ;;
       ret (inr f))
      is_ClientError
      (fun e =>
         ret (inl {| statusCode := 400;
                     body := "Error downloading s3://" ++ BUCKET
                             ++ "/transcription/" ++ transcription_job_name
                             ++ ".json: " ++ str_exn e |})) ;;
  match downloaded with
  | inl early => ret early
  | inr f =>
      converted <- lift (convert_to_txt_file (NamedTemporaryFile w) f) ;;
      match converted with
      | None => throw (TypeError "cannot unpack non-iterable NoneType object")
      | Some (transcript_content, transcript_output_file) =>
          if negb (truthy transcript_output_file)
             || negb (path_exists w transcript_output_file)
          then ret {| statusCode := 400;
                      body := "Error converting transcription to txt file" |}
          else upload_and_summarize w BUCKET transcription_job_name
                 transcript_content transcript_output_file
      end
  end.

(** [x in l] for strings. *)
Definition str_in (x : string) (l : list string) : bool :=
  existsb (String.eqb x) l.

(** [lambda_handler(event, context)]; [event] is [None] when the event is
    empty or has no [detail]. *)
Definition lambda_handler (env : environ) (w : services) (event : option detail)
  : M call response :=
  let BUCKET := OUTPUT_BUCKET env in
  match event with
  | Some d =>
      let transcription_job_name := TranscriptionJobName d in
      perform (GetTranscriptionJob transcription_job_name)
        (fun tr => get_transcription_job w tr transcription_job_name) ;;;
      if str_in (TranscriptionJobStatus d) ["COMPLETED"] then
        completed w BUCKET transcription_job_name
      else if str_in (TranscriptionJobStatus d) ["FAILED"] then
        ret {| statusCode := 400;
               body := "Unable to process, job " ++ transcription_job_name
                       ++ " failed." |}
      else
        ret {| statusCode := 500;
               body := "Transcription job " ++ transcription_job_name
                       ++ " is not completed or failed." |}
  | None => ret {| statusCode := 500; body := "Invalid event received." |}
  end.

(** *** Vocabulary of the specification *)

(** The speaker labels of the pronunciation items, in order. *)
Fixpoint speakers (items : list item) : list string :=
  match items with
  | [] => []
  | Pronunciation _ label :: rest => label :: speakers rest
  | _ :: rest => speakers rest
  end.

(** The number of maximal runs of equal consecutive labels. *)
Fixpoint runs (labels : list string) : nat :=
  match labels with
  | [] => 0
  | x :: rest =>
      match rest with
      | [] => 1
      | y :: _ => if String.eqb x y then runs rest else S (runs rest)
      end
  end.

(** The label of the last pronunciation item, if there is one. *)
Definition last_speaker (items : list item) : option string :=
  last (map Some (speakers items)) None.

(** Every pronunciation item has a non-empty content. *)
Definition words_nonempty (items : list item) : Prop :=
  forall content label, In (Pronunciation content label) items -> content <> "".

(** No punctuation item comes before the first pronunciation item. *)
Fixpoint no_leading_punctuation (items : list item) : bool :=
  match items with
  | [] => true
  | Pronunciation _ _ :: _ => true
  | Punctuation _ :: _ => false
  | OtherType _ :: rest => no_leading_punctuation rest
  end.

Definition is_pronunciation (it : item) : bool :=
  match it with Pronunciation _ _ => true | _ => false end.

Definition is_punctuation (it : item) : bool :=
  match it with Punctuation _ => true | _ => false end.

(** The transcript returned, without the output path. *)
Definition transcript_of (r : outcome (option (string * string)))
  : outcome (option string) :=
  match r with
  | Return v => Return (option_map fst v)
  | Raise e => Raise e
  end.

(** A call on S3 or on the model, as opposed to a job lookup. *)
Definition is_storage_or_model_call (c : call) : bool :=
  match c with
  | GetTranscriptionJob _ => false
  | _ => true
  end.

(** *** Sample inputs *)

(** The sample transcript of the specification. *)
Definition hello_world : list item :=
  [Pronunciation "Hello" "spk_0"; Punctuation "."; Pronunciation "world" "spk_1"].

(** Every service answers with success; the transcript object holds [f]
    and the model answers [summary]. *)
Definition world (f : json_file) (summary : string) : services :=
  {| get_transcription_job := fun _ _ => Return tt;
     download_file := fun _ _ _ _ => Return f;
     NamedTemporaryFile := "/tmp/tmpk3v9x2.txt";
     path_exists := fun _ => true;
     upload_file := fun _ _ _ _ => Return tt;
     invoke_model := fun _ _ _ =>
       Return {| model_status := 200;
                 model_body := Some {| body_str := "<StreamingBody>";
                                       content_text := Return summary |} |};
     put_object := fun _ _ _ _ =>
       Return {| put_status := 200; put_str := "{'ResponseMetadata': ...}" |} |}.

Definition sample_env : environ := {| OUTPUT_BUCKET := "my-bucket" |}.

Definition sample_event (status : string) : option detail :=
  Some {| TranscriptionJobName := "summarizer-lmrca78v3tug";
          TranscriptionJobStatus := status |}.

End Summarizer.

(** ** The ingest Lambda: from an S3 notification to a Transcribe job *)

Module Ingest.

(** The keyword arguments of [start_transcription_job]. *)
Record transcription_request : Type := {
  TranscriptionJobName : string;
  MediaFileUri : string;
  MediaFormat : string;
  IdentifyMultipleLanguages : bool;
  ShowSpeakerLabels : bool;
  MaxSpeakerLabels : nat;
  ChannelIdentification : bool;
  ShowAlternatives : bool;
  OutputBucketName : string;
  OutputKey : string
}.

Inductive call : Type :=
| StartTranscriptionJob (request : transcription_request).

(** [random i] is the [i]-th draw of the generator, as a natural number;
    [start_transcription_job] answers with the [HTTPStatusCode] of its
    response. *)
Record services : Type := {
  random : nat -> nat;
  start_transcription_job : list call -> transcription_request -> outcome nat
}.

Record environ : Type := { OUTPUT_BUCKET : string }.

(** [Records[0].s3] of the notification. *)
Record s3_event : Type := { bucket_name : string; object_key : string }.

Definition ascii_lowercase : string := "abcdefghijklmnopqrstuvwxyz".
Definition digits : string := "0123456789".

(** [[population[i] for i in indices]] *)
Fixpoint pick (population : list ascii) (indices : list nat)
  : outcome (list ascii) :=
  match indices with
  | [] => Return []
  | i :: rest =>
      match nth_error population i with
      | None => Raise IndexError
      | Some c =>
          match pick population rest with
          | Return cs => Return (c :: cs)
          | Raise e => Raise e
          end
      end
  end.

(** [random.choices(population, k=k)], that is
    [[population[floor(random() * n)] for i in range(k)]] with [n] the
    length of the population.  [random()] is a float in [0, 1), so that
    [floor(random() * n)] is an index below [n]: here it is the draw
    reduced modulo [n]. *)
Definition choices (w : services) (population : string) (k : nat)
  : outcome (list ascii) :=
  let n := String.length population in
  pick (list_ascii_of_string population)
       (map (fun i => random w i mod n) (seq 0 k)).

(** Lines 32 to 34. *)
Definition job_name (w : services) : outcome string :=
  match choices w (ascii_lowercase ++ digits) 12 with
  | Return cs => Return ("summarizer-" ++ string_of_list_ascii cs)
  | Raise e => Raise e
  end.

Definition any_exception (e : exn) : bool := true.

(** [lambda_handler(event, context)] *)
Definition lambda_handler (env : environ) (w : services) (event : s3_event)
  : M call response :=
  let bucket := bucket_name event in
  let key := object_key event in
  if String.eqb key "source/" then
    ret {| statusCode := 200; body := "Source folder, skipping" |}
  else
    job_name <- lift (job_name w) ;;
    let extension := snd (splitext key) in
    if negb (truthy extension) then
      ret {| statusCode := 400; body := "invalid file name " ++ key |}
    else
      let media_format := substring 1 (String.length extension - 1) extension in
      let job_uri := "s3://" ++ bucket ++ "/" ++ key in
      let request :=
        {| TranscriptionJobName := job_name;
           MediaFileUri := job_uri;
           MediaFormat := media_format;
           IdentifyMultipleLanguages := true;
           ShowSpeakerLabels := true;
           MaxSpeakerLabels := 10;
           ChannelIdentification := false;
           ShowAlternatives := false;
           OutputBucketName := OUTPUT_BUCKET env;
           OutputKey := "transcription/" ++ job_name ++ ".json" |} in
      try_except
        (status <- perform (StartTranscriptionJob request)
                     (fun tr => start_transcription_job w tr request) ;;
         if negb (status =? 200)%nat then
           ret {| statusCode := status; body := job_name |}
         else ret {| statusCode := 200; body := job_name |})
        any_exception
        (fun e => ret {| statusCode := 500; body := str_exn e |}).

(** *** Sample world *)

Definition world : services :=
  {| random := fun i => 7 * i + 3;
     start_transcription_job := fun _ _ => Return 200 |}.

Definition sample_env : environ := {| OUTPUT_BUCKET := "my_bucket" |}.

Definition sample_event (key : string) : s3_event :=
  {| bucket_name := "uploads"; object_key := key |}.

(** A lowercase letter (a to z) or a digit (0 to 9). *)
Definition lower_alnum (c : ascii) : bool :=
  let n := nat_of_ascii c in
  (((97 <=? n) && (n <=? 122)) || ((48 <=? n) && (n <=? 57)))%nat.

(** What the spec calls an [InvalidInput] failure for [key]: no job is
    submitted and the result is the non-success one naming the key. *)
Definition invalid_input (key : string) (r : list call * outcome response)
  : Prop :=
  r = ([], Return {| statusCode := 400; body := "invalid file name " ++ key |}).

End Ingest.

(** ** The EventBridge rule of the stack *)

Module Stack.

(** The [detail] part of the rule's event pattern. *)
Definition TranscriptionJobStatus : list string := ["COMPLETED"; "FAILED"].
Definition TranscriptionJobName_prefix : string := "summarizer-".

(** Whether the rule forwards a job state change to the summarizer. *)
Definition rule_matches (name status : string) : bool :=
  existsb (String.eqb status) TranscriptionJobStatus
  && String.prefix TranscriptionJobName_prefix name.

End Stack.

(** ** Further vocabulary: what a run leaves behind, and more worlds *)

Module Scenario.

Import Summarizer.

(** The words of one speaker, as pronunciation items. *)
Definition spoken_by (label : string) (words : list string) : list item :=
  map (fun w => Pronunciation w label) words.

(** What the temporary file holds when the [with] block is left, normally
    or by the exception: the text of the [write] calls made, in order. *)
Definition file_contents (items : list item) : string :=
  String.concat ""
    (match convert_items items with
     | Return st => output_file st
     | Raise _ => output_file (loop items)
     end).

(** A speaker the lines may name, given the labels of the input: no
    speaker yet, or one of the labels. *)
Definition known_speaker (labels : list string) (speaker : option string)
  : Prop :=
  match speaker with
  | None => True
  | Some label => In label labels
  end.

(** A well-formed line over the labels of the input: a known speaker as an
    f-string prints it, a colon and a space, a text that [strip] leaves as
    it is (no white space at either end), and a newline. *)
Definition well_formed_line (labels : list string) (l : string) : Prop :=
  exists speaker text,
    l = format_opt speaker ++ ": " ++ text ++ newline
    /\ strip text = text
    /\ known_speaker labels speaker.

(** The text of the punctuation items, in order. *)
Fixpoint punctuation_text (items : list item) : string :=
  match items with
  | [] => ""
  | Punctuation content :: rest => content ++ punctuation_text rest
  | _ :: rest => punctuation_text rest
  end.

(** One label per maximal run of equal consecutive labels. *)
Fixpoint run_labels (labels : list string) : list string :=
  match labels with
  | [] => []
  | x :: rest =>
      match rest with
      | [] => [x]
      | y :: _ => if String.eqb x y then run_labels rest else x :: run_labels rest
      end
  end.

(** The line is attributed to the speaker [label]. *)
Definition attributed (l label : string) : Prop :=
  exists text, l = label ++ ": " ++ strip text ++ newline.

(** The step of the pipeline a call belongs to, in the order of the
    handler's text: the two job lookups, the download, the upload, the
    model, the summary. *)
Definition stage (c : call) : nat :=
  match c with
  | GetTranscriptionJob _ => 0
  | DownloadFile _ _ _ => 1
  | UploadFile _ _ _ => 2
  | InvokeModel _ _ => 3
  | PutObject _ _ _ => 4
  end.

Definition stages : list nat := [0; 0; 1; 2; 3; 4].

(** [l] is an initial segment of [full]. *)
Fixpoint initial_segment (l full : list nat) : bool :=
  match l, full with
  | [], _ => true
  | x :: l', y :: full' => Nat.eqb x y && initial_segment l' full'
  | _ :: _, [] => false
  end.

(** The bucket and key a call on S3 addresses. *)
Definition s3_target (c : call) : option (string * string) :=
  match c with
  | DownloadFile Bucket Key _ => Some (Bucket, Key)
  | UploadFile _ Bucket Key => Some (Bucket, Key)
  | PutObject _ Bucket Key => Some (Bucket, Key)
  | _ => None
  end.

(** The keys of the persisted layout for one job. *)
Definition job_keys (name : string) : list string :=
  ["transcription/" ++ name ++ ".json";
   "transcription/" ++ name ++ ".txt";
   "processed/" ++ name ++ ".txt"].

(** A call stays inside [bucket] and the keys of the job [name]. *)
Definition within_job (bucket name : string) (c : call) : bool :=
  match s3_target c with
  | Some (b, k) => String.eqb b bucket && existsb (String.eqb k) (job_keys name)
  | None => true
  end.

(** The objects of one job, and the local copy of the raw transcript. *)
Definition json_key (name : string) : string :=
  "transcription/" ++ name ++ ".json".
Definition local_json (name : string) : string := "/tmp/" ++ name ++ ".json".
Definition txt_key (name : string) : string :=
  "transcription/" ++ name ++ ".txt".
Definition processed_key (name : string) : string :=
  "processed/" ++ name ++ ".txt".

(** The calls of a COMPLETED invocation, up to and including each step. *)
Definition lookups (name : string) : list call :=
  [GetTranscriptionJob name; GetTranscriptionJob name].

Definition through_download (bucket name : string) : list call :=
  app (lookups name) [DownloadFile bucket (json_key name) (local_json name)].

Definition through_upload (bucket name tmp : string) : list call :=
  app (through_download bucket name) [UploadFile tmp bucket (txt_key name)].

Definition through_model (bucket name tmp transcript : string) : list call :=
  app (through_upload bucket name tmp)
      [InvokeModel modelId (request_body transcript)].

Definition through_put (bucket name tmp transcript summary : string)
  : list call :=
  app (through_model bucket name tmp transcript)
      [PutObject summary bucket (processed_key name)].

(** The job is COMPLETED and both lookups return. *)
Definition looked_up (w : services) (d : detail) : Prop :=
  TranscriptionJobStatus d = "COMPLETED"
  /\ get_transcription_job w [] (TranscriptionJobName d) = Return tt
  /\ get_transcription_job w [GetTranscriptionJob (TranscriptionJobName d)]
       (TranscriptionJobName d) = Return tt.

(** Moreover the raw transcript is downloaded and converted to
    [transcript], and the temporary file is there. *)
Definition transcript_ready (env : environ) (w : services) (d : detail)
           (transcript : string) : Prop :=
  looked_up w d
  /\ (exists f,
        download_file w (lookups (TranscriptionJobName d)) (OUTPUT_BUCKET env)
          (json_key (TranscriptionJobName d))
          (local_json (TranscriptionJobName d)) = Return f
        /\ convert_to_txt_file (NamedTemporaryFile w) f
           = Return (Some (transcript, NamedTemporaryFile w)))
  /\ truthy (NamedTemporaryFile w) = true
  /\ path_exists w (NamedTemporaryFile w) = true.

(** Moreover the converted transcript is uploaded. *)
Definition transcript_uploaded (env : environ) (w : services) (d : detail)
           (transcript : string) : Prop :=
  transcript_ready env w d transcript
  /\ upload_file w (through_download (OUTPUT_BUCKET env) (TranscriptionJobName d))
       (NamedTemporaryFile w) (OUTPUT_BUCKET env)
       (txt_key (TranscriptionJobName d)) = Return tt.

(** The answer of the model to the request made from [transcript]. *)
Definition model_answer (env : environ) (w : services) (d : detail)
           (transcript : string) : outcome model_response :=
  invoke_model w
    (through_upload (OUTPUT_BUCKET env) (TranscriptionJobName d)
       (NamedTemporaryFile w))
    modelId (request_body transcript).

(** A world whose services give the same answers whatever was called
    before. *)
Definition answering (lookup : outcome unit) (download : outcome json_file)
           (exists_ : bool) (upload : outcome unit)
           (model : outcome model_response) (put : outcome put_response)
  : services :=
  {| get_transcription_job := fun _ _ => lookup;
     download_file := fun _ _ _ _ => download;
     NamedTemporaryFile := "/tmp/tmpk3v9x2.txt";
     path_exists := fun _ => exists_;
     upload_file := fun _ _ _ _ => upload;
     invoke_model := fun _ _ _ => model;
     put_object := fun _ _ _ _ => put |}.

Definition model_ok (summary : string) : outcome model_response :=
  Return {| model_status := 200;
            model_body := Some {| body_str := "<StreamingBody>";
                                  content_text := Return summary |} |}.

Definition put_ok : outcome put_response :=
  Return {| put_status := 200; put_str := "{'ResponseMetadata': ...}" |}.

Definition job (status : string) : detail :=
  {| TranscriptionJobName := "summarizer-lmrca78v3tug";
     TranscriptionJobStatus := status |}.

(** The index of the last occurrence of [c] in [s], if there is one. *)
Fixpoint last_index (c : ascii) (s : string) : option nat :=
  match s with
  | EmptyString => None
  | String a r =>
      match last_index c r with
      | Some k => Some (S k)
      | None => if Ascii.eqb a c then Some 0 else None
      end
  end.

(** No character of [s] is a dot or a slash. *)
Definition plain (s : string) : bool :=
  forallb (fun a => negb (Ascii.eqb a ".") && negb (Ascii.eqb a "/"))
          (list_ascii_of_string s).

(** The request the ingest handler makes for the job named [name]. *)
Definition submitted (env : Ingest.environ) (event : Ingest.s3_event)
           (name : string) : Ingest.transcription_request :=
  let extension := snd (splitext (Ingest.object_key event)) in
  {| Ingest.TranscriptionJobName := name;
     Ingest.MediaFileUri :=
       "s3://" ++ Ingest.bucket_name event ++ "/" ++ Ingest.object_key event;
     Ingest.MediaFormat := substring 1 (String.length extension - 1) extension;
     Ingest.IdentifyMultipleLanguages := true;
     Ingest.ShowSpeakerLabels := true;
     Ingest.MaxSpeakerLabels := 10;
     Ingest.ChannelIdentification := false;
     Ingest.ShowAlternatives := false;
     Ingest.OutputBucketName := Ingest.OUTPUT_BUCKET env;
     Ingest.OutputKey := "transcription/" ++ name ++ ".json" |}.

(** An ingest world whose Transcribe client gives the answer [o]. *)
Definition transcribe_answering (o : outcome nat) : Ingest.services :=
  {| Ingest.random := fun i => 5 * i + 11;
     Ingest.start_transcription_job := fun _ _ => o |}.

End Scenario.

(** * Properties of the transcript normalizer *)

Section Normalizer.

Import Summarizer.

Lemma truthy_nonempty (s : string) : truthy s = true <-> s <> "".
Proof.
  destruct s; simpl; split; intro H; try reflexivity; try discriminate.
  now elim H.
Qed.

Lemma truthy_append (a b : string) :
  truthy (a ++ b) = truthy a || truthy b.
Proof. destruct a; reflexivity. Qed.

Lemma str_ne_same (s : string) : str_ne s (Some s) = false.
Proof. unfold str_ne. now rewrite String.eqb_refl. Qed.

Lemma str_ne_spec (a b : string) :
  str_ne a (Some b) = negb (String.eqb b a).
Proof. unfold str_ne. now rewrite String.eqb_sym. Qed.

(** The two sinks receive the same lines: what is written to the
    temporary file is what is joined into the returned transcript. *)
Lemma loop_body_sinks (st : locals) (it : item) :
  output_file st = output st ->
  output_file (loop_body st it) = output (loop_body st it).
Proof.
  intros E. destruct it as [c l | c | t]; simpl; auto.
  destruct (str_ne l (current_speaker st)); simpl; auto.
  destruct (truthy (current_text st)); congruence.
Qed.

Lemma fold_sinks (items : list item) :
  forall st, output_file st = output st ->
  output_file (fold_left loop_body items st)
  = output (fold_left loop_body items st).
Proof.
  induction items as [| it rest IH]; intros st E; simpl; auto.
  apply IH, loop_body_sinks, E.
Qed.

Lemma last_cons (A : Type) (a d : A) (l : list A) :
  last (a :: l) d = last l a.
Proof.
  revert a d. induction l as [| x xs IH]; intros a d; [reflexivity |].
  change (last (a :: x :: xs) d) with (last (x :: xs) d).
  now rewrite (IH x d), (IH x a).
Qed.

(** After the loop the name [speaker_label] holds the label of the last
    pronunciation item, or what it held before when there is none. *)
Lemma fold_speaker_label (items : list item) :
  forall st,
    speaker_label (fold_left loop_body items st)
    = last (map Some (speakers items)) (speaker_label st).
Proof.
  induction items as [| it rest IH]; intros st; [reflexivity |].
  cbn [fold_left]. rewrite IH.
  destruct it as [c l | c | t]; cbn [speakers map]; try reflexivity.
  rewrite last_cons. f_equal.
  simpl. now destruct (str_ne l (current_speaker st)).
Qed.

(** Without pronunciation items the text only grows, and no label is
    ever bound. *)
Lemma fold_text_punctuation (items : list item) :
  forall st,
    (forall c l, ~ In (Pronunciation c l) items) ->
    truthy (current_text st) = true
    \/ (exists c, In (Punctuation c) items /\ c <> "") ->
    truthy (current_text (fold_left loop_body items st)) = true.
Proof.
  induction items as [| it rest IH]; intros st N H.
  - destruct H as [H | [c [[] _]]]. exact H.
  - assert (N' : forall c l, ~ In (Pronunciation c l) rest).
    { intros c l I. apply (N c l). now right. }
    cbn [fold_left]. apply IH; [exact N' |].
    destruct it as [c l | c | t].
    + exfalso. apply (N c l). now left.
    + cbn [loop_body current_text]. rewrite truthy_append.
      destruct H as [H | [c' [[E | I] Hc]]].
      * left. now rewrite H.
      * injection E as <-. left.
        apply truthy_nonempty in Hc. rewrite Hc. apply orb_true_r.
      * right. now exists c'.
    + destruct H as [H | [c' [[E | I] Hc]]].
      * now left.
      * discriminate.
      * right. now exists c'.
Qed.

Lemma speakers_without_words (items : list item) :
  (forall c l, ~ In (Pronunciation c l) items) -> speakers items = [].
Proof.
  induction items as [| it rest IH]; intros N; [reflexivity |].
  destruct it as [c l | c | t]; cbn [speakers].
  - exfalso. apply (N c l). now left.
  - apply IH. intros c' l I. apply (N c' l). now right.
  - apply IH. intros c' l I. apply (N c' l). now right.
Qed.

Lemma runs_cons2 (x y : string) (rest : list string) :
  runs (x :: y :: rest)
  = if String.eqb x y then runs (y :: rest) else S (runs (y :: rest)).
Proof. reflexivity. Qed.

Lemma words_nonempty_tail (it : item) (rest : list item) :
  words_nonempty (it :: rest) -> words_nonempty rest.
Proof. intros W c l I. apply (W c l). now right. Qed.

(** The two ways a word is taken in. *)
Lemma loop_body_same (st : locals) (c l : string) :
  current_speaker st = Some l ->
  loop_body st (Pronunciation c l)
  = {| current_speaker := Some l;
       current_text := current_text st ++ " " ++ c;
       output := output st;
       output_file := output_file st;
       speaker_label := Some l |}.
Proof. intros E. simpl. rewrite E, str_ne_same. reflexivity. Qed.

Lemma loop_body_change (st : locals) (c l : string) :
  str_ne l (current_speaker st) = true ->
  truthy (current_text st) = true ->
  loop_body st (Pronunciation c l)
  = {| current_speaker := Some l;
       current_text := c;
       output :=
         (output st ++ [line (current_speaker st) (current_text st)])%list;
       output_file :=
         (output_file st ++ [line (current_speaker st) (current_text st)])%list;
       speaker_label := Some l |}.
Proof. intros N T. simpl. rewrite N, T. reflexivity. Qed.

(** The loop invariant behind the count of lines: once a speaker is being
    accumulated with a non-empty text, one line is closed at each change
    of speaker, and the text stays non-empty. *)
Lemma fold_runs (items : list item) :
  forall st s,
    current_speaker st = Some s ->
    truthy (current_text st) = true ->
    words_nonempty items ->
    truthy (current_text (fold_left loop_body items st)) = true
    /\ length (output (fold_left loop_body items st)) + 1
       = length (output st) + runs (s :: speakers items).
Proof.
  induction items as [| it rest IH]; intros st s Hs Ht W.
  - simpl. split; [assumption | lia].
  - pose proof (words_nonempty_tail W) as W'.
    destruct it as [c l | c | t]; cbn [fold_left speakers].
    + assert (Hc : truthy c = true).
      { apply truthy_nonempty. apply (W c l). now left. }
      rewrite runs_cons2.
      destruct (String.eqb_spec s l) as [-> | Hne].
      * rewrite (loop_body_same st c Hs).
        match goal with
        | |- context [fold_left loop_body rest ?st1] =>
            destruct (IH st1 l) as [T L]; auto
        end.
        cbn [current_text]. rewrite truthy_append, Ht. reflexivity.
      * assert (N : str_ne l (current_speaker st) = true).
        { rewrite Hs, str_ne_spec.
          destruct (String.eqb_spec s l); [contradiction | reflexivity]. }
        rewrite (loop_body_change st c l N Ht).
        match goal with
        | |- context [fold_left loop_body rest ?st1] =>
            destruct (IH st1 l) as [T L]; auto
        end.
        split; [exact T |].
        rewrite L. cbn [output]. rewrite length_app. simpl. lia.
    + destruct (IH (loop_body st (Punctuation c)) s) as [T L]; auto.
      simpl. rewrite truthy_append, Ht. reflexivity.
    + apply IH; auto.
Qed.

Lemma last_some (A : Type) (xs : list A) :
  forall d, exists x, last (map Some xs) (Some d) = Some x.
Proof.
  induction xs as [| y ys IH]; intros d; [now exists d |].
  cbn [map]. rewrite last_cons. apply IH.
Qed.

(** The first word binds [speaker_label] for good. *)
Lemma first_word (c l : string) :
  loop_body initial (Pronunciation c l)
  = {| current_speaker := Some l; current_text := c; output := [];
       output_file := []; speaker_label := Some l |}.
Proof. reflexivity. Qed.

(** From the first statement of the function: items of other types are
    skipped, then the first word opens the first run. *)
Lemma convert_items_runs (items : list item) :
  words_nonempty items ->
  no_leading_punctuation items = true ->
  exists st,
    convert_items items = Return st
    /\ length (output st) = runs (speakers items).
Proof.
  unfold convert_items, loop.
  induction items as [| it rest IH]; intros W P.
  - exists initial. split; reflexivity.
  - destruct it as [c l | c | t]; cbn [fold_left speakers].
    + assert (Hc : truthy c = true).
      { apply truthy_nonempty. apply (W c l). now left. }
      rewrite first_word.
      match goal with
      | |- context [fold_left loop_body rest ?st1] =>
          destruct (@fold_runs rest st1 l) as [T L];
            [reflexivity | exact Hc | eapply words_nonempty_tail, W |];
          pose proof (fold_speaker_label rest st1) as SL;
          set (st2 := fold_left loop_body rest st1) in *
      end.
      cbn [speaker_label output] in SL, L.
      destruct (last_some (speakers rest) l) as [lab E].
      rewrite E in SL.
      unfold final_line. rewrite T, SL.
      eexists. split; [reflexivity |].
      cbn [output]. rewrite length_app. cbn [length] in *. lia.
    + discriminate.
    + apply IH; [eapply words_nonempty_tail, W | exact P].
Qed.

Lemma convert_items_sinks (items : list item) (st : locals) :
  convert_items items = Return st -> output_file st = output st.
Proof.
  unfold convert_items, final_line, loop.
  pose proof (@fold_sinks items initial eq_refl) as E.
  destruct (truthy _).
  - destruct (speaker_label _); [| discriminate].
    intros [= <-]. cbn [output output_file]. now rewrite E.
  - now intros [= <-].
Qed.

Lemma hello_world_words : words_nonempty hello_world.
Proof.
  intros c l [E | [E | [E | []]]]; try discriminate;
    injection E as <- _; discriminate.
Qed.

(** C1 (amended).  For every item sequence in which every pronunciation
    item has a non-empty content and no punctuation item comes before the
    first pronunciation item, [convert_to_txt_file] returns, and the number
    of lines it has emitted (appended to [output], and written to the
    temporary file) equals the number of maximal runs of consecutive
    pronunciation items with the same speaker label, punctuation items
    never starting a run. *)
Theorem C1_lines_equal_speaker_runs (output_path : string) (items : list item) :
  words_nonempty items ->
  no_leading_punctuation items = true ->
  exists st,
    convert_items items = Return st
    /\ convert_to_txt_file output_path (Document (Some items))
       = Return (Some (String.concat "" (output st), output_path))
    /\ output_file st = output st
    /\ length (output st) = runs (speakers items).
Proof.
  intros W P.
  destruct (convert_items_runs W P) as [st [E L]].
  exists st. repeat split; auto.
  - unfold convert_to_txt_file, get_items. now rewrite E.
  - eapply convert_items_sinks, E.
Qed.

Lemma C1_lines_equal_speaker_runs_witness :
  words_nonempty hello_world
  /\ no_leading_punctuation hello_world = true
  /\ exists st,
       convert_items hello_world = Return st
       /\ convert_to_txt_file "/tmp/tmpk3v9x2.txt" (Document (Some hello_world))
          = Return (Some (String.concat "" (output st), "/tmp/tmpk3v9x2.txt"))
       /\ output_file st = output st
       /\ length (output st) = runs (speakers hello_world).
Proof.
  split; [exact hello_world_words |].
  split; [reflexivity |].
  apply (@C1_lines_equal_speaker_runs "/tmp/tmpk3v9x2.txt" hello_world);
    [exact hello_world_words | reflexivity].
Defined.

(** C1 as stated fails: a single pronunciation item with an empty content
    is one run, and the guard [if current_text:] emits no line for it. *)
Lemma C1_counterexample_empty_word :
  [Pronunciation "" "spk_0"] <> []
  /\ runs (speakers [Pronunciation "" "spk_0"]) = 1
  /\ convert_to_txt_file "/tmp/tmpk3v9x2.txt"
       (Document (Some [Pronunciation "" "spk_0"]))
     = Return (Some ("", "/tmp/tmpk3v9x2.txt"))
  /\ exists st,
       convert_items [Pronunciation "" "spk_0"] = Return st
       /\ length (output st) = 0.
Proof.
  split; [discriminate |]. split; [reflexivity |]. split; [reflexivity |].
  eexists. split; reflexivity.
Qed.

(** A punctuation item ahead of the first word is flushed as a line of its
    own, under the speaker [None]: two lines for one run. *)
Example leading_punctuation_line :
  convert_to_txt_file "/tmp/tmpk3v9x2.txt"
    (Document (Some [Punctuation "."; Pronunciation "world" "spk_1"]))
  = Return (Some ("None: ." ++ newline ++ "spk_1: world" ++ newline,
                  "/tmp/tmpk3v9x2.txt"))
  /\ runs (speakers [Punctuation "."; Pronunciation "world" "spk_1"]) = 1.
Proof. split; reflexivity. Qed.

(** C3.  When the loop ends with a non-empty accumulated text and [label]
    is the speaker label of the last pronunciation item of the sequence,
    the function returns and the last line it has emitted is
    [label], a colon and a space, the trimmed accumulated text, and a
    newline. *)
Theorem C3_final_line_last_speaker
        (output_path : string) (items : list item) (label : string) :
  current_text (loop items) <> "" ->
  last_speaker items = Some label ->
  exists st,
    convert_items items = Return st
    /\ convert_to_txt_file output_path (Document (Some items))
       = Return (Some (String.concat "" (output st), output_path))
    /\ output st
       = app (output (loop items))
             [label ++ ": " ++ strip (current_text (loop items)) ++ newline]
    /\ last (output st) ""
       = label ++ ": " ++ strip (current_text (loop items)) ++ newline.
Proof.
  intros T L.
  apply truthy_nonempty in T.
  pose proof (fold_speaker_label items initial) as SL.
  fold (loop items) in SL. cbn [speaker_label initial] in SL.
  unfold last_speaker in L. rewrite L in SL.
  assert (E : convert_items items
              = Return {| current_speaker := current_speaker (loop items);
                          current_text := current_text (loop items);
                          output := (output (loop items)
                                       ++ [line (Some label) (current_text (loop items))])%list;
                          output_file := (output_file (loop items)
                                            ++ [line (Some label) (current_text (loop items))])%list;
                          speaker_label := speaker_label (loop items) |}).
  { unfold convert_items, final_line. now rewrite T, SL. }
  eexists. split; [exact E |].
  split; [unfold convert_to_txt_file, get_items; now rewrite E |].
  cbn [output]. split; [reflexivity |].
  apply last_last.
Qed.

Lemma C3_final_line_last_speaker_witness :
  current_text (loop hello_world) <> ""
  /\ last_speaker hello_world = Some "spk_1"
  /\ exists st,
       convert_items hello_world = Return st
       /\ convert_to_txt_file "/tmp/tmpk3v9x2.txt" (Document (Some hello_world))
          = Return (Some (String.concat "" (output st), "/tmp/tmpk3v9x2.txt"))
       /\ output st
          = app (output (loop hello_world))
                ["spk_1" ++ ": " ++ strip (current_text (loop hello_world))
                   ++ newline]
       /\ last (output st) ""
          = "spk_1" ++ ": " ++ strip (current_text (loop hello_world)) ++ newline.
Proof.
  split; [vm_compute; discriminate |].
  split; [reflexivity |].
  apply (@C3_final_line_last_speaker "/tmp/tmpk3v9x2.txt" hello_world "spk_1");
    [vm_compute; discriminate | reflexivity].
Defined.

(** C4.  On the three items of the specification the returned transcript
    is the two lines [spk_0: Hello.] and [spk_1: world], each ended by a
    newline. *)
Theorem C4_hello_world (output_path : string) :
  convert_to_txt_file output_path (Document (Some hello_world))
  = Return (Some ("spk_0: Hello." ++ newline ++ "spk_1: world" ++ newline,
                  output_path)).
Proof. reflexivity. Qed.

(** C5 (amended).  For every item sequence with no pronunciation item and
    at least one punctuation item of non-empty content,
    [convert_to_txt_file] raises [UnboundLocalError] (a [NameError]) for
    the name [speaker_label] at the final line: it neither returns a
    transcript nor returns [None]. *)
Theorem C5_punctuation_only_raises (output_path : string) (items : list item) :
  (forall content label, ~ In (Pronunciation content label) items) ->
  (exists content, In (Punctuation content) items /\ content <> "") ->
  convert_to_txt_file output_path (Document (Some items))
  = Raise (UnboundLocalError "speaker_label")
  /\ is_NameError (UnboundLocalError "speaker_label") = true.
Proof.
  intros N P. split; [| reflexivity].
  unfold convert_to_txt_file, get_items, convert_items, final_line.
  pose proof (fold_speaker_label items initial) as SL.
  rewrite (@speakers_without_words items N) in SL. cbn in SL.
  unfold loop. rewrite SL.
  rewrite (@fold_text_punctuation items initial N (or_intror P)).
  reflexivity.
Qed.

Lemma C5_punctuation_only_raises_witness :
  (forall content label, ~ In (Pronunciation content label) [Punctuation "."])
  /\ (exists content, In (Punctuation content) [Punctuation "."] /\ content <> "")
  /\ convert_to_txt_file "/tmp/tmpk3v9x2.txt" (Document (Some [Punctuation "."]))
     = Raise (UnboundLocalError "speaker_label")
  /\ is_NameError (UnboundLocalError "speaker_label") = true.
Proof.
  assert (N : forall content label,
             ~ In (Pronunciation content label) [Punctuation "."]).
  { intros c l [E | []]. discriminate. }
  assert (P : exists content,
             In (Punctuation content) [Punctuation "."] /\ content <> "").
  { exists ".". split; [now left | discriminate]. }
  split; [exact N |]. split; [exact P |].
  exact (@C5_punctuation_only_raises "/tmp/tmpk3v9x2.txt" [Punctuation "."] N P).
Defined.

(** C5 as stated fails: one punctuation item with an empty content, and no
    pronunciation item, leaves the accumulated text empty; the final line
    is skipped and the function returns the empty transcript. *)
Lemma C5_counterexample_empty_punctuation :
  [Punctuation ""] <> []
  /\ existsb is_punctuation [Punctuation ""] = true
  /\ existsb is_pronunciation [Punctuation ""] = false
  /\ convert_to_txt_file "/tmp/tmpk3v9x2.txt" (Document (Some [Punctuation ""]))
     = Return (Some ("", "/tmp/tmpk3v9x2.txt")).
Proof. split; [discriminate |]. repeat split. Qed.

(** C6.  An empty [items] list, or a document without the [items] key,
    gives the empty string as the transcript, with nothing written to the
    temporary file; the function returns normally. *)
Theorem C6_empty_items (output_path : string) :
  convert_to_txt_file output_path (Document (Some []))
  = Return (Some ("", output_path))
  /\ convert_to_txt_file output_path (Document None)
     = Return (Some ("", output_path))
  /\ convert_items [] = Return initial
  /\ output_file initial = [].
Proof. repeat split. Qed.

(** C10.  The transcript that [convert_to_txt_file] returns, or the
    exception it raises, is a function of the parsed input alone: two runs
    on the same input agree on it, whatever temporary files they get. *)
Theorem C10_normalizer_deterministic (path1 path2 : string) (f : json_file) :
  transcript_of (convert_to_txt_file path1 f)
  = transcript_of (convert_to_txt_file path2 f).
Proof.
  destruct f as [| items]; [reflexivity |].
  unfold convert_to_txt_file.
  destruct (convert_items (get_items items)); reflexivity.
Qed.

End Normalizer.

(** * Properties of the summarizer handler *)

Section SummarizerHandler.

Import Summarizer.

(** Whatever the services answer, a FAILED job leads to one call only,
    the lookup of the job. *)
Lemma failed_job_calls (env : environ) (w : services) (d : detail) :
  TranscriptionJobStatus d = "FAILED" ->
  fst (run (lambda_handler env w (Some d)))
  = [GetTranscriptionJob (TranscriptionJobName d)].
Proof.
  intros S. unfold run, lambda_handler, bind, perform. rewrite S.
  cbn [app]. destruct (get_transcription_job w [] (TranscriptionJobName d));
    reflexivity.
Qed.

(** C7 (amended).  For every event whose status is FAILED, the handler
    makes no call on storage and none on the model: its only call is the
    lookup of the job that opens the handler; and whenever that lookup
    returns, the handler returns the failure result, status code 400 with
    the message that the job failed. *)
Theorem C7_failed_job_reports_failure
        (env : environ) (w : services) (d : detail) :
  TranscriptionJobStatus d = "FAILED" ->
  fst (run (lambda_handler env w (Some d)))
  = [GetTranscriptionJob (TranscriptionJobName d)]
  /\ existsb is_storage_or_model_call
       (fst (run (lambda_handler env w (Some d)))) = false
  /\ (get_transcription_job w [] (TranscriptionJobName d) = Return tt ->
      snd (run (lambda_handler env w (Some d)))
      = Return {| statusCode := 400;
                  body := "Unable to process, job " ++ TranscriptionJobName d
                          ++ " failed." |}).
Proof.
  intros S. split; [now apply failed_job_calls |].
  split; [now rewrite failed_job_calls |].
  intros G. unfold run, lambda_handler, bind, perform. rewrite S, G.
  reflexivity.
Qed.

Lemma C7_failed_job_reports_failure_witness :
  TranscriptionJobStatus
    {| TranscriptionJobName := "summarizer-lmrca78v3tug";
       TranscriptionJobStatus := "FAILED" |} = "FAILED"
  /\ get_transcription_job (world (Document (Some hello_world)) "A summary.") []
       "summarizer-lmrca78v3tug" = Return tt
  /\ run (lambda_handler sample_env
            (world (Document (Some hello_world)) "A summary.")
            (sample_event "FAILED"))
     = ([GetTranscriptionJob "summarizer-lmrca78v3tug"],
        Return {| statusCode := 400;
                  body := "Unable to process, job summarizer-lmrca78v3tug failed." |}).
Proof.
  split; [reflexivity |]. split; [reflexivity |].
  destruct (@C7_failed_job_reports_failure sample_env
              (world (Document (Some hello_world)) "A summary.")
              {| TranscriptionJobName := "summarizer-lmrca78v3tug";
                 TranscriptionJobStatus := "FAILED" |} eq_refl)
    as [T [_ R]].
  specialize (R eq_refl).
  apply injective_projections; [exact T | exact R].
Defined.

(** C7 as stated fails: the lookup of line 105 is outside every [try], so
    on a FAILED event whose lookup raises, the handler raises too and
    reports nothing. *)
Lemma C7_counterexample_lookup_raises :
  TranscriptionJobStatus
    {| TranscriptionJobName := "summarizer-lmrca78v3tug";
       TranscriptionJobStatus := "FAILED" |} = "FAILED"
  /\ run (lambda_handler sample_env
            {| get_transcription_job :=
                 fun _ _ => Raise (ClientError "Rate exceeded");
               download_file := fun _ _ _ _ => Return NotJSON;
               NamedTemporaryFile := "/tmp/tmpk3v9x2.txt";
               path_exists := fun _ => true;
               upload_file := fun _ _ _ _ => Return tt;
               invoke_model := fun _ _ _ => Raise (ClientError "unused");
               put_object := fun _ _ _ _ => Raise (ClientError "unused") |}
            (Some {| TranscriptionJobName := "summarizer-lmrca78v3tug";
                     TranscriptionJobStatus := "FAILED" |}))
     = ([GetTranscriptionJob "summarizer-lmrca78v3tug"],
        Raise (ClientError "Rate exceeded")).
Proof. split; reflexivity. Qed.

(** Text that is not JSON makes [convert_to_txt_file] return the single
    value [None]; the handler unpacks it into two names, which raises
    [TypeError] before the test meant to report the failure. *)
Lemma not_json_uncaught (env : environ) (w : services) (d : detail) :
  TranscriptionJobStatus d = "COMPLETED" ->
  let name := TranscriptionJobName d in
  let Key := "transcription/" ++ name ++ ".json" in
  let Filename := "/tmp/" ++ name ++ ".json" in
  get_transcription_job w [] name = Return tt ->
  get_transcription_job w [GetTranscriptionJob name] name = Return tt ->
  download_file w [GetTranscriptionJob name; GetTranscriptionJob name]
    (OUTPUT_BUCKET env) Key Filename = Return NotJSON ->
  run (lambda_handler env w (Some d))
  = ([GetTranscriptionJob name; GetTranscriptionJob name;
      DownloadFile (OUTPUT_BUCKET env) Key Filename],
     Raise (TypeError "cannot unpack non-iterable NoneType object")).
Proof.
  intros S name Key Filename G1 G2 D.
  unfold run, lambda_handler, completed, bind, perform, try_except, lift, throw.
  fold name. rewrite S. cbn [str_in existsb String.eqb Ascii.eqb Bool.eqb orb app].
  rewrite G1. cbn [app]. rewrite G2. fold Key Filename. cbn [app].
  rewrite D. reflexivity.
Qed.

(** C2 (the code at the failing input).  With a transcript object that is
    not JSON, [convert_to_txt_file] returns [None], and the handler, after
    two job lookups and the download, raises [TypeError] instead of
    returning a result. *)
Theorem C2_not_json_raises_TypeError :
  convert_to_txt_file (NamedTemporaryFile (world NotJSON "")) NotJSON
  = Return None
  /\ run (lambda_handler sample_env (world NotJSON "") (sample_event "COMPLETED"))
     = ([GetTranscriptionJob "summarizer-lmrca78v3tug";
         GetTranscriptionJob "summarizer-lmrca78v3tug";
         DownloadFile "my-bucket" "transcription/summarizer-lmrca78v3tug.json"
           "/tmp/summarizer-lmrca78v3tug.json"],
        Raise (TypeError "cannot unpack non-iterable NoneType object")).
Proof. split; reflexivity. Qed.

(** The same world with a well-formed transcript runs to the end. *)
Example completed_job_summarized :
  snd (run (lambda_handler sample_env
              (world (Document (Some hello_world)) "A summary.")
              (sample_event "COMPLETED")))
  = Return {| statusCode := 200;
              body := "processed/summarizer-lmrca78v3tug.txt" |}.
Proof. reflexivity. Qed.

(** A transcript made of punctuation only: the [UnboundLocalError] of the
    normalizer leaves the handler as it is, no [except] clause covers it. *)
Example punctuation_only_job_raises :
  snd (run (lambda_handler sample_env
              (world (Document (Some [Punctuation "."])) "A summary.")
              (sample_event "COMPLETED")))
  = Raise (UnboundLocalError "speaker_label").
Proof. reflexivity. Qed.

End SummarizerHandler.

(** * Properties of the ingest handler *)

Section IngestHandler.

Import Ingest.

Lemma pick_in_range (population : list ascii) (indices : list nat) :
  Forall (fun i => i < length population) indices ->
  exists cs,
    pick population indices = Return cs
    /\ length cs = length indices
    /\ Forall (fun c => In c population) cs.
Proof.
  induction 1 as [| i rest Hi _ IH].
  - exists []. repeat split. constructor.
  - destruct IH as [cs [E [L F]]].
    destruct (nth_error population i) as [c |] eqn:N.
    + exists (c :: cs). cbn [pick]. rewrite N, E.
      repeat split; [simpl; now rewrite L |].
      constructor; [eapply nth_error_In, N | exact F].
    + apply nth_error_None in N. lia.
Qed.

Lemma length_string_of_list_ascii (cs : list ascii) :
  String.length (string_of_list_ascii cs) = length cs.
Proof. induction cs as [| c cs IH]; simpl; congruence. Qed.

Lemma population_lower_alnum :
  forallb lower_alnum (list_ascii_of_string (ascii_lowercase ++ digits)) = true.
Proof. reflexivity. Qed.

Lemma prefix_append (p s : string) : String.prefix p (p ++ s) = true.
Proof.
  induction p as [| a p IH]; simpl; [now destruct s |].
  destruct (ascii_dec a a); [exact IH | contradiction].
Qed.

Lemma rule_matches_prefixed (suffix status : string) :
  In status Stack.TranscriptionJobStatus ->
  Stack.rule_matches (Stack.TranscriptionJobName_prefix ++ suffix) status = true.
Proof.
  intros I. unfold Stack.rule_matches. rewrite prefix_append, andb_true_r.
  apply existsb_exists. exists status. split; [exact I |].
  apply String.eqb_refl.
Qed.

(** Lines 32 to 34 always give a name, of the announced shape. *)
Lemma job_name_returns (w : services) :
  exists cs,
    job_name w = Return ("summarizer-" ++ string_of_list_ascii cs)
    /\ length cs = 12
    /\ forallb lower_alnum cs = true.
Proof.
  unfold job_name, choices.
  set (population := ascii_lowercase ++ digits).
  destruct (@pick_in_range (list_ascii_of_string population)
              (map (fun i => random w i mod String.length population) (seq 0 12)))
    as [cs [E [L F]]].
  { apply Forall_forall. intros i I. apply in_map_iff in I.
    destruct I as [k [<- _]].
    change (length (list_ascii_of_string population)) with 36.
    change (String.length population) with 36.
    apply Nat.mod_upper_bound. discriminate. }
  exists cs. rewrite E. split; [reflexivity |].
  split; [now rewrite L, length_map, length_seq |].
  apply forallb_forall. intros c I.
  rewrite Forall_forall in F.
  exact (proj1 (forallb_forall _ _) population_lower_alnum c (F c I)).
Qed.

(** C8 (amended).  For every storage-create event whose key has no file
    extension and is not the watched folder [source/] itself, the handler
    submits no transcription job and returns the result with status code
    400 and the message naming the key. *)
Theorem C8_no_extension_invalid_input
        (env : environ) (w : services) (event : s3_event) :
  snd (splitext (object_key event)) = "" ->
  object_key event <> "source/" ->
  invalid_input (object_key event) (run (lambda_handler env w event)).
Proof.
  intros X K.
  destruct (job_name_returns w) as [cs [J _]].
  unfold invalid_input, run, lambda_handler, bind, lift, ret.
  destruct (String.eqb_spec (object_key event) "source/") as [E | _];
    [contradiction |].
  rewrite J, X. reflexivity.
Qed.

Lemma C8_no_extension_invalid_input_witness :
  snd (splitext (object_key (sample_event "source/clip"))) = ""
  /\ object_key (sample_event "source/clip") <> "source/"
  /\ invalid_input "source/clip"
       (run (lambda_handler sample_env world (sample_event "source/clip"))).
Proof.
  split; [reflexivity |].
  split; [discriminate |].
  apply (@C8_no_extension_invalid_input sample_env world
           (sample_event "source/clip"));
    [reflexivity | discriminate].
Defined.

(** C8 as stated fails: the key [source/] has no file extension, and the
    guard at the head of the handler answers it with success. *)
Lemma C8_counterexample_source_folder :
  snd (splitext "source/") = ""
  /\ run (lambda_handler sample_env world (sample_event "source/"))
     = ([], Return {| statusCode := 200; body := "Source folder, skipping" |})
  /\ ~ invalid_input "source/"
         (run (lambda_handler sample_env world (sample_event "source/"))).
Proof.
  split; [reflexivity |]. split; [reflexivity |].
  unfold invalid_input. discriminate.
Qed.

(** The three keys of the specification. *)
Example ingest_clip_mp3 :
  exists request,
    fst (run (lambda_handler sample_env world (sample_event "source/clip.mp3")))
    = [StartTranscriptionJob request]
    /\ MediaFormat request = "mp3"
    /\ MediaFileUri request = "s3://uploads/source/clip.mp3".
Proof. eexists. repeat split. Qed.

(** C9.  The job name made by the handler is [summarizer-] followed by
    exactly 12 characters, each a lowercase letter or a digit; it has the
    prefix that the EventBridge rule of the stack filters on, so the rule
    matches it for both statuses; and a job submitted by the handler
    carries that name. *)
Theorem C9_job_name_prefix_and_suffix (w : services) :
  exists suffix,
    job_name w = Return ("summarizer-" ++ suffix)
    /\ String.length suffix = 12
    /\ forallb lower_alnum (list_ascii_of_string suffix) = true
    /\ Stack.rule_matches ("summarizer-" ++ suffix) "COMPLETED" = true
    /\ Stack.rule_matches ("summarizer-" ++ suffix) "FAILED" = true
    /\ forall env event,
         fst (run (lambda_handler env w event)) = []
         \/ exists request,
              fst (run (lambda_handler env w event))
              = [StartTranscriptionJob request]
              /\ TranscriptionJobName request = "summarizer-" ++ suffix
              /\ OutputKey request
                 = "transcription/" ++ "summarizer-" ++ suffix ++ ".json".
Proof.
  destruct (job_name_returns w) as [cs [J [L A]]].
  exists (string_of_list_ascii cs).
  split; [exact J |].
  split; [now rewrite length_string_of_list_ascii |].
  split; [now rewrite list_ascii_of_string_of_list_ascii |].
  split; [apply (@rule_matches_prefixed _ "COMPLETED"); simpl; tauto |].
  split; [apply (@rule_matches_prefixed _ "FAILED"); simpl; tauto |].
  intros env event.
  unfold run, lambda_handler, bind, lift, ret, try_except, perform.
  destruct (String.eqb (object_key event) "source/"); [now left |].
  rewrite J.
  destruct (truthy (snd (splitext (object_key event)))); [| now left].
  right. cbn [negb app].
  match goal with
  | |- context [StartTranscriptionJob ?r] => exists r
  end.
  split; [| split; reflexivity].
  destruct (start_transcription_job w [] _) as [status | e]; cbn.
  - destruct (negb (Nat.eqb status 200)); reflexivity.
  - reflexivity.
Qed.

End IngestHandler.

(** * More on the transcript normalizer *)

Section NormalizerMore.

Import Summarizer Scenario.

Lemma append_assoc (a b c : string) : (a ++ b) ++ c = a ++ b ++ c.
Proof. induction a as [| x a IH]; simpl; congruence. Qed.

(** The lines appended to [output] are only ever added at the end. *)
Lemma fold_output_grows (items : list item) :
  forall st, exists more,
    output (fold_left loop_body items st) = app (output st) more.
Proof.
  induction items as [| it rest IH]; intros st.
  - exists []. simpl. now rewrite app_nil_r.
  - cbn [fold_left]. destruct (IH (loop_body st it)) as [more E].
    rewrite E. clear E IH.
    destruct it as [c l | c | t]; cbn [loop_body output].
    + destruct (str_ne l (current_speaker st)); cbn [output].
      * destruct (truthy (current_text st)).
        -- eexists. now rewrite <- app_assoc.
        -- now exists more.
      * now exists more.
    + now exists more.
    + now exists more.
Qed.

(** X1.  Whenever [convert_to_txt_file] returns a transcript, the temporary
    file it has written holds exactly that transcript. *)
Theorem returned_transcript_is_file_contents
        (output_path : string) (items : option (list item))
        (transcript path : string) :
  convert_to_txt_file output_path (Document items)
  = Return (Some (transcript, path)) ->
  file_contents (get_items items) = transcript /\ path = output_path.
Proof.
  unfold convert_to_txt_file, file_contents.
  destruct (convert_items (get_items items)) as [st |] eqn:E; [| discriminate].
  intros [= <- <-]. split; [| reflexivity].
  now rewrite (convert_items_sinks _ E).
Qed.

Lemma returned_transcript_is_file_contents_witness :
  convert_to_txt_file "/tmp/tmpk3v9x2.txt" (Document (Some hello_world))
  = Return (Some ("spk_0: Hello." ++ newline ++ "spk_1: world" ++ newline,
                  "/tmp/tmpk3v9x2.txt"))
  /\ file_contents (get_items (Some hello_world))
     = "spk_0: Hello." ++ newline ++ "spk_1: world" ++ newline
  /\ "/tmp/tmpk3v9x2.txt" = "/tmp/tmpk3v9x2.txt".
Proof.
  split; [reflexivity |].
  apply (@returned_transcript_is_file_contents "/tmp/tmpk3v9x2.txt"
           (Some hello_world)).
  reflexivity.
Defined.

(** X3.  Items read later never touch the lines already emitted: the lines
    emitted by the loop on a sequence are an initial segment of the lines it
    emits on any extension of the sequence. *)
Theorem emitted_lines_are_kept (items later : list item) :
  exists more,
    output (loop (items ++ later)) = app (output (loop items)) more.
Proof.
  unfold loop. rewrite fold_left_app. apply fold_output_grows.
Qed.

(** Words of the current speaker are joined to the text with single
    spaces, and nothing is emitted meanwhile. *)
Lemma fold_same_speaker (label : string) (words : list string) :
  forall st,
    current_speaker st = Some label ->
    fold_left loop_body (spoken_by label words) st
    = {| current_speaker := Some label;
         current_text := String.concat " " (current_text st :: words);
         output := output st;
         output_file := output_file st;
         speaker_label :=
           match words with [] => speaker_label st | _ => Some label end |}.
Proof.
  induction words as [| w ws IH]; intros st E.
  - destruct st; simpl in *. now subst.
  - cbn [spoken_by map fold_left]. fold (spoken_by label ws).
    rewrite (loop_body_same st w E), IH by reflexivity.
    cbn [current_text output output_file speaker_label].
    f_equal; [| now destruct ws].
    destruct ws as [| x xs]; simpl; [reflexivity |].
    now rewrite !append_assoc.
Qed.

(** X2.  A sequence of words all of one speaker gives one line, the label,
    a colon and a space, then the words joined by single spaces and trimmed;
    or no line at all when the joined text is empty. *)
Theorem one_speaker_one_line (label : string) (words : list string) :
  exists st,
    convert_items (spoken_by label words) = Return st
    /\ output st
       = if truthy (String.concat " " words)
         then [label ++ ": " ++ strip (String.concat " " words) ++ newline]
         else [].
Proof.
  destruct words as [| w ws].
  - exists initial. split; reflexivity.
  - unfold convert_items, loop. cbn [spoken_by map fold_left].
    fold (spoken_by label ws). rewrite first_word.
    rewrite fold_same_speaker by reflexivity.
    cbn [current_text output output_file speaker_label].
    unfold final_line. cbn [current_text speaker_label output output_file].
    assert (SL : match ws with [] => Some label | _ :: _ => Some label end
                 = Some label) by now destruct ws.
    rewrite SL.
    destruct (truthy (String.concat " " (w :: ws))); eexists; split; reflexivity.
Qed.

(** [strip] has nothing left to remove from its own result. *)
Lemma rstrip_idempotent (s : string) : rstrip (rstrip s) = rstrip s.
Proof.
  induction s as [| c r IH]; [reflexivity |].
  cbn [rstrip]. destruct (rstrip r) as [| a r'] eqn:E.
  - destruct (isspace c) eqn:C; [reflexivity |].
    cbn [rstrip]. now rewrite C.
  - cbn [rstrip] in IH |- *.
    change (match rstrip r' with
            | "" => if isspace a then "" else String a ""
            | String a0 s0 => String a (String a0 s0)
            end) with (rstrip (String a r')) in *.
    now rewrite IH.
Qed.

Lemma lstrip_head (s : string) :
  match lstrip s with
  | EmptyString => True
  | String c _ => isspace c = false
  end.
Proof.
  induction s as [| c r IH]; [exact I |].
  cbn [lstrip]. destruct (isspace c) eqn:C; [exact IH | exact C].
Qed.

Lemma rstrip_head (c : ascii) (r : string) :
  isspace c = false -> exists r', rstrip (String c r) = String c r'.
Proof.
  intros C. cbn [rstrip]. destruct (rstrip r) as [| a r'].
  - rewrite C. now exists "".
  - now exists (String a r').
Qed.

Lemma strip_idempotent (s : string) : strip (strip s) = strip s.
Proof.
  unfold strip. pose proof (lstrip_head s) as H.
  destruct (lstrip s) as [| c r]; [reflexivity |].
  destruct (@rstrip_head c r H) as [r' E].
  rewrite E. cbn [lstrip]. rewrite H, <- E. apply rstrip_idempotent.
Qed.

Lemma well_formed_line_more (labels labels' : list string) (l : string) :
  incl labels labels' -> well_formed_line labels l -> well_formed_line labels' l.
Proof.
  intros I [sp [t [E [T K]]]]. exists sp, t. repeat split; auto.
  destruct sp as [label |]; [apply I, K | exact K].
Qed.

Lemma known_speaker_more (labels labels' : list string) (sp : option string) :
  incl labels labels' -> known_speaker labels sp -> known_speaker labels' sp.
Proof. intros I K. destruct sp as [label |]; [apply I, K | exact K]. Qed.

Lemma line_well_formed (labels : list string) (sp : option string) (t : string) :
  known_speaker labels sp -> well_formed_line labels (line sp t).
Proof.
  intros K. exists sp, (strip t).
  split; [reflexivity |]. split; [apply strip_idempotent | exact K].
Qed.

(** The loop invariant: the lines and the two speaker names only use
    labels read so far. *)
Lemma fold_well_formed (items : list item) :
  forall st seen,
    Forall (well_formed_line seen) (output st) ->
    known_speaker seen (current_speaker st) ->
    known_speaker seen (speaker_label st) ->
    Forall (well_formed_line (app seen (speakers items)))
           (output (fold_left loop_body items st))
    /\ known_speaker (app seen (speakers items))
         (speaker_label (fold_left loop_body items st)).
Proof.
  induction items as [| it rest IH]; intros st seen F C L.
  - cbn [speakers fold_left]. rewrite app_nil_r. now split.
  - destruct it as [c l | c | t]; cbn [fold_left speakers].
    + assert (I : incl seen (app seen [l])) by (apply incl_appl, incl_refl).
      assert (Hl : In l (app seen [l])) by (apply in_or_app; right; now left).
      replace (app seen (l :: speakers rest))
        with (app (app seen [l]) (speakers rest))
        by (now rewrite <- app_assoc).
      apply IH.
      * cbn [loop_body].
        destruct (str_ne l (current_speaker st)); cbn [output].
        -- destruct (truthy (current_text st)).
           ++ apply Forall_app. split.
              ** eapply Forall_impl; [| exact F].
                 intros x. now apply well_formed_line_more.
              ** constructor; [| constructor].
                 apply line_well_formed.
                 now apply (@known_speaker_more seen (app seen [l]) _ I).
           ++ eapply Forall_impl; [| exact F].
              intros x. now apply well_formed_line_more.
        -- eapply Forall_impl; [| exact F].
           intros x. now apply well_formed_line_more.
      * cbn [loop_body].
        destruct (str_ne l (current_speaker st)); cbn [current_speaker].
        -- exact Hl.
        -- now apply (@known_speaker_more seen (app seen [l]) _ I).
      * cbn [loop_body].
        destruct (str_ne l (current_speaker st)); cbn [speaker_label]; exact Hl.
    + now apply IH.
    + now apply IH.
Qed.

(** X4.  Whenever the function returns, every line it has emitted is well
    formed: the speaker, which is [None] or the label of a pronunciation
    item of the input, then a colon and a space, then a text with no white
    space at either end, then a newline. *)
Theorem emitted_lines_well_formed (items : list item) (st : locals) :
  convert_items items = Return st ->
  Forall (well_formed_line (speakers items)) (output st).
Proof.
  unfold convert_items, final_line.
  destruct (@fold_well_formed items initial [] (Forall_nil _) I I) as [F L].
  fold (loop items) in F, L. cbn [app] in F, L.
  destruct (truthy (current_text (loop items))).
  - destruct (speaker_label (loop items)) as [label |]; [| discriminate].
    intros [= <-]. cbn [output]. apply Forall_app. split; [exact F |].
    constructor; [| constructor]. now apply line_well_formed.
  - now intros [= <-].
Qed.

Lemma emitted_lines_well_formed_witness :
  exists st,
    convert_items hello_world = Return st
    /\ Forall (well_formed_line (speakers hello_world)) (output st).
Proof.
  eexists. split; [reflexivity |].
  eapply (@emitted_lines_well_formed hello_world). reflexivity.
Defined.

(** A line whose text keeps a leading space, as a loop without [strip]
    would write it, is not well formed. *)
Example untrimmed_line_not_well_formed :
  ~ well_formed_line ["spk_0"] ("spk_0:  Hello" ++ newline).
Proof.
  intros [sp [t [E [T K]]]]. unfold newline in E.
  destruct sp as [label |]; cbn in E; [| discriminate E].
  destruct K as [<- | []]. cbn in E.
  injection E as E.
  destruct t as [| a t]; cbn in E; [discriminate E |].
  injection E as <- E.
  do 5 (destruct t as [| ? t]; cbn in E; [discriminate E | injection E as <- E]).
  destruct t as [| ? t]; [vm_compute in T; discriminate T |].
  cbn in E. injection E as _ E. destruct t; discriminate E.
Qed.

Lemma speakers_with_word (items : list item) :
  existsb is_pronunciation items = true ->
  exists label, last_speaker items = Some label.
Proof.
  unfold last_speaker.
  induction items as [| it rest IH]; [discriminate |].
  destruct it as [c l | c | t]; cbn [existsb is_pronunciation speakers orb].
  - intros _. cbn [map]. rewrite last_cons. apply last_some.
  - exact IH.
  - exact IH.
Qed.

(** X6.  A document with at least one pronunciation item is always
    converted: the function returns a transcript and the path of the
    temporary file, whatever else the items are. *)
Theorem transcript_with_a_word_converts
        (output_path : string) (items : list item) :
  existsb is_pronunciation items = true ->
  exists transcript,
    convert_to_txt_file output_path (Document (Some items))
    = Return (Some (transcript, output_path)).
Proof.
  intros W. destruct (speakers_with_word items W) as [label L].
  pose proof (fold_speaker_label items initial) as SL.
  unfold last_speaker in L. cbn [speaker_label initial] in SL.
  rewrite L in SL.
  unfold convert_to_txt_file, get_items, convert_items, final_line, loop.
  rewrite SL.
  destruct (truthy (current_text (fold_left loop_body items initial)));
    eexists; reflexivity.
Qed.

Lemma transcript_with_a_word_converts_witness :
  existsb is_pronunciation [Punctuation "."; Pronunciation "" "spk_0"] = true
  /\ exists transcript,
       convert_to_txt_file "/tmp/tmpk3v9x2.txt"
         (Document (Some [Punctuation "."; Pronunciation "" "spk_0"]))
       = Return (Some (transcript, "/tmp/tmpk3v9x2.txt")).
Proof.
  split; [reflexivity |].
  apply (@transcript_with_a_word_converts "/tmp/tmpk3v9x2.txt"
           [Punctuation "."; Pronunciation "" "spk_0"]).
  reflexivity.
Defined.

(** Inside a run, a line is closed at most once per change of speaker. *)
Lemma fold_runs_bound (items : list item) :
  forall st s,
    current_speaker st = Some s ->
    length (output (fold_left loop_body items st)) + 1
    <= length (output st) + runs (s :: speakers items).
Proof.
  induction items as [| it rest IH]; intros st s Hs.
  - simpl. lia.
  - destruct it as [c l | c | t]; cbn [fold_left speakers].
    + rewrite runs_cons2.
      destruct (String.eqb_spec s l) as [-> | Hne].
      * rewrite (loop_body_same st c Hs).
        match goal with
        | |- context [fold_left loop_body rest ?st1] =>
            specialize (IH st1 l eq_refl)
        end.
        exact IH.
      * assert (N : str_ne l (current_speaker st) = true).
        { rewrite Hs, str_ne_spec.
          destruct (String.eqb_spec s l); [contradiction | reflexivity]. }
        destruct (truthy (current_text st)) eqn:T.
        -- rewrite (loop_body_change st c l N T).
           match goal with
           | |- context [fold_left loop_body rest ?st1] =>
               specialize (IH st1 l eq_refl)
           end.
           cbn [output] in IH. rewrite length_app in IH. cbn [length] in IH. lia.
        -- assert (E : loop_body st (Pronunciation c l)
                       = {| current_speaker := Some l; current_text := c;
                            output := output st; output_file := output_file st;
                            speaker_label := Some l |}).
           { simpl. now rewrite N, T. }
           rewrite E.
           match goal with
           | |- context [fold_left loop_body rest ?st1] =>
               specialize (IH st1 l eq_refl)
           end.
           cbn [output] in IH. lia.
    + apply (IH (loop_body st (Punctuation c)) s). exact Hs.
    + apply IH. exact Hs.
Qed.

(** X5.  When no punctuation item comes before the first pronunciation
    item, the function returns and emits at most one line per run of
    consecutive pronunciation items of one speaker, whatever the contents
    of the items. *)
Theorem lines_at_most_speaker_runs (items : list item) :
  no_leading_punctuation items = true ->
  exists st,
    convert_items items = Return st
    /\ length (output st) <= runs (speakers items).
Proof.
  unfold convert_items, loop.
  induction items as [| it rest IH]; intros P.
  - exists initial. split; [reflexivity | simpl; lia].
  - destruct it as [c l | c | t]; cbn [fold_left speakers].
    + rewrite first_word.
      match goal with
      | |- context [fold_left loop_body rest ?st1] =>
          pose proof (@fold_runs_bound rest st1 l eq_refl) as B;
          pose proof (fold_speaker_label rest st1) as SL;
          set (st2 := fold_left loop_body rest st1) in *
      end.
      cbn [speaker_label output length] in SL, B.
      destruct (last_some (speakers rest) l) as [lab E].
      rewrite E in SL. unfold final_line. rewrite SL.
      destruct (truthy (current_text st2)); eexists; (split; [reflexivity |]).
      * cbn [output]. rewrite length_app. cbn [length]. lia.
      * lia.
    + discriminate.
    + apply IH. exact P.
Qed.

Lemma lines_at_most_speaker_runs_witness :
  no_leading_punctuation
    [Pronunciation "" "spk_0"; Pronunciation "Hi" "spk_1"] = true
  /\ exists st,
       convert_items [Pronunciation "" "spk_0"; Pronunciation "Hi" "spk_1"]
       = Return st
       /\ length (output st)
          <= runs (speakers [Pronunciation "" "spk_0"; Pronunciation "Hi" "spk_1"]).
Proof.
  split; [reflexivity |].
  apply (@lines_at_most_speaker_runs
           [Pronunciation "" "spk_0"; Pronunciation "Hi" "spk_1"]).
  reflexivity.
Defined.

(** Before the first word the loop only gathers punctuation. *)
Lemma fold_before_first_word (lead : list item) :
  forall st,
    existsb is_pronunciation lead = false ->
    fold_left loop_body lead st
    = {| current_speaker := current_speaker st;
         current_text := current_text st ++ punctuation_text lead;
         output := output st;
         output_file := output_file st;
         speaker_label := speaker_label st |}.
Proof.
  induction lead as [| it rest IH]; intros st N.
  - cbn [fold_left punctuation_text].
    assert (E : current_text st ++ "" = current_text st).
    { induction (current_text st) as [| a t IHt]; simpl; congruence. }
    rewrite E. now destruct st.
  - destruct it as [c l | c | t]; cbn [existsb is_pronunciation orb] in N;
      [discriminate | |]; cbn [fold_left punctuation_text].
    + rewrite (@IH _ N). cbn [loop_body current_speaker current_text output
                               output_file speaker_label].
      now rewrite append_assoc.
    + now rewrite (@IH _ N).
Qed.

(** X7.  Punctuation read before the first word has no speaker.  When the
    items ahead of the first pronunciation item hold punctuation whose
    contents, put together, are not empty, the first line emitted is that
    text, trimmed, under the speaker printed as [None]; items of other
    types ahead of the first word change nothing. *)
Theorem leading_punctuation_under_None
        (lead : list item) (c l : string) (rest : list item) :
  existsb is_pronunciation lead = false ->
  punctuation_text lead <> "" ->
  exists more,
    output (loop (app lead (Pronunciation c l :: rest)))
    = ("None: " ++ strip (punctuation_text lead) ++ newline) :: more.
Proof.
  intros N Hp. apply truthy_nonempty in Hp.
  unfold loop. rewrite fold_left_app, (@fold_before_first_word lead initial N).
  cbn [fold_left initial current_speaker current_text output output_file
         speaker_label append].
  match goal with
  | |- context [fold_left loop_body rest ?st1] =>
      destruct (fold_output_grows rest st1) as [more E]; rewrite E
  end.
  exists more.
  cbn [loop_body current_speaker current_text str_ne output app].
  rewrite Hp. reflexivity.
Qed.

Lemma leading_punctuation_under_None_witness :
  existsb is_pronunciation
    [OtherType "silence"; Punctuation "a"; Punctuation "b"] = false
  /\ punctuation_text [OtherType "silence"; Punctuation "a"; Punctuation "b"]
     <> ""
  /\ exists more,
       output (loop (app [OtherType "silence"; Punctuation "a"; Punctuation "b"]
                         (Pronunciation "world" "spk_1" :: [])))
       = ("None: "
            ++ strip (punctuation_text
                        [OtherType "silence"; Punctuation "a"; Punctuation "b"])
            ++ newline) :: more.
Proof.
  split; [reflexivity |].
  split; [discriminate |].
  apply (@leading_punctuation_under_None
           [OtherType "silence"; Punctuation "a"; Punctuation "b"]
           "world" "spk_1" []);
    [reflexivity | discriminate].
Defined.

End NormalizerMore.

(** * More on the summarizer handler *)

Section SummarizerHandlerMore.

Import Summarizer Scenario.

Ltac innermost :=
  match goal with
  | |- context [match ?x with _ => _ end] =>
      lazymatch x with
      | context [match _ with _ => _ end] => fail
      | _ => destruct x eqn:?
      end
  end.

Ltac handler_unfold :=
  unfold run, lambda_handler, completed, upload_and_summarize, store_summary,
    bind, perform, try_except, lift, throw, ret, str_in, any_exception.

(** Every path through the handler, one goal per combination of answers. *)
Ltac handler_cases :=
  handler_unfold;
  repeat (cbn [existsb orb app fst snd map stage is_ClientError negb];
          innermost).

Ltac unfold_history :=
  unfold transcript_uploaded, transcript_ready, looked_up, model_answer,
    through_put, through_model, through_upload, through_download, lookups,
    json_key, local_json, txt_key, processed_key in *;
  cbn [app] in *.

(** X10.  The job lookup that opens the handler is outside every [try]: when
    it raises, the same exception leaves the handler after that one call,
    whatever the status of the job. *)
Theorem lookup_failure_propagates
        (env : environ) (w : services) (d : detail) (e : exn) :
  get_transcription_job w [] (TranscriptionJobName d) = Raise e ->
  run (lambda_handler env w (Some d))
  = ([GetTranscriptionJob (TranscriptionJobName d)], Raise e).
Proof. intros G. handler_unfold. cbn [app]. now rewrite G. Qed.

Lemma lookup_failure_propagates_witness :
  get_transcription_job
    (answering (Raise (ClientError "Rate exceeded")) (Return NotJSON) true
       (Return tt) (model_ok "") put_ok)
    [] (TranscriptionJobName (job "FAILED"))
  = Raise (ClientError "Rate exceeded")
  /\ run (lambda_handler sample_env
            (answering (Raise (ClientError "Rate exceeded")) (Return NotJSON)
               true (Return tt) (model_ok "") put_ok)
            (Some (job "FAILED")))
     = ([GetTranscriptionJob (TranscriptionJobName (job "FAILED"))],
        Raise (ClientError "Rate exceeded")).
Proof.
  split; [reflexivity |].
  apply (@lookup_failure_propagates sample_env _ (job "FAILED")).
  reflexivity.
Defined.

(** X11.  A status that is neither COMPLETED nor FAILED is answered, once
    the job lookup has returned, with status code 500 and the message that
    the job is not completed or failed; the lookup is the only call. *)
Theorem other_status_is_reported
        (env : environ) (w : services) (d : detail) :
  TranscriptionJobStatus d <> "COMPLETED" ->
  TranscriptionJobStatus d <> "FAILED" ->
  get_transcription_job w [] (TranscriptionJobName d) = Return tt ->
  run (lambda_handler env w (Some d))
  = ([GetTranscriptionJob (TranscriptionJobName d)],
     Return {| statusCode := 500;
               body := "Transcription job " ++ TranscriptionJobName d
                       ++ " is not completed or failed." |}).
Proof.
  intros C F G. handler_unfold. cbn [app existsb]. rewrite G.
  apply String.eqb_neq in C, F. now rewrite C, F.
Qed.

Lemma other_status_is_reported_witness :
  TranscriptionJobStatus (job "IN_PROGRESS") <> "COMPLETED"
  /\ TranscriptionJobStatus (job "IN_PROGRESS") <> "FAILED"
  /\ get_transcription_job (world NotJSON "") []
       (TranscriptionJobName (job "IN_PROGRESS")) = Return tt
  /\ run (lambda_handler sample_env (world NotJSON "") (Some (job "IN_PROGRESS")))
     = ([GetTranscriptionJob (TranscriptionJobName (job "IN_PROGRESS"))],
        Return {| statusCode := 500;
                  body := "Transcription job "
                          ++ TranscriptionJobName (job "IN_PROGRESS")
                          ++ " is not completed or failed." |}).
Proof.
  split; [discriminate |]. split; [discriminate |]. split; [reflexivity |].
  apply (@other_status_is_reported sample_env (world NotJSON "")
           (job "IN_PROGRESS")); [discriminate | discriminate | reflexivity].
Defined.

(** X12.  When the download of the raw transcript raises, the invocation
    ends after the two lookups and the download.  A [ClientError] is
    answered with status code 400 and a message with the object and the
    error; any other exception leaves the handler. *)
Theorem download_failure
        (env : environ) (w : services) (d : detail) (e : exn) :
  looked_up w d ->
  download_file w (lookups (TranscriptionJobName d)) (OUTPUT_BUCKET env)
    (json_key (TranscriptionJobName d)) (local_json (TranscriptionJobName d))
  = Raise e ->
  run (lambda_handler env w (Some d))
  = (through_download (OUTPUT_BUCKET env) (TranscriptionJobName d),
     if is_ClientError e
     then Return {| statusCode := 400;
                    body := "Error downloading s3://" ++ OUTPUT_BUCKET env
                            ++ "/transcription/" ++ TranscriptionJobName d
                            ++ ".json: " ++ str_exn e |}
     else Raise e).
Proof.
  intros [S [G1 G2]] D. unfold_history. handler_unfold.
  rewrite S. cbn [existsb String.eqb Ascii.eqb Bool.eqb orb app].
  rewrite G1. cbn [app]. rewrite G2. cbn [app]. rewrite D.
  now destruct (is_ClientError e).
Qed.

Lemma download_failure_witness :
  looked_up (answering (Return tt) (Raise (ClientError "Not Found")) true
               (Return tt) (model_ok "") put_ok) (job "COMPLETED")
  /\ run (lambda_handler sample_env
            (answering (Return tt) (Raise (ClientError "Not Found")) true
               (Return tt) (model_ok "") put_ok)
            (Some (job "COMPLETED")))
     = (through_download "my-bucket" "summarizer-lmrca78v3tug",
        Return {| statusCode := 400;
                  body := "Error downloading s3://my-bucket/transcription/summarizer-lmrca78v3tug.json: Not Found" |}).
Proof.
  assert (L : looked_up (answering (Return tt) (Raise (ClientError "Not Found"))
                           true (Return tt) (model_ok "") put_ok)
                (job "COMPLETED")).
  { repeat split. }
  split; [exact L |].
  exact (@download_failure sample_env _ (job "COMPLETED")
           (ClientError "Not Found") L eq_refl).
Defined.

(** The handler up to the upload, once the transcript is ready. *)
Lemma run_to_upload (env : environ) (w : services) (d : detail)
      (transcript : string) :
  transcript_ready env w d transcript ->
  run (lambda_handler env w (Some d))
  = upload_and_summarize w (OUTPUT_BUCKET env) (TranscriptionJobName d)
      transcript (NamedTemporaryFile w)
      (through_download (OUTPUT_BUCKET env) (TranscriptionJobName d)).
Proof.
  intros [[S [G1 G2]] [[f [D C]] [T P]]]. unfold_history.
  unfold run, lambda_handler, completed, bind, perform, try_except, lift,
    throw, ret, str_in.
  rewrite S. cbn [existsb String.eqb Ascii.eqb Bool.eqb orb app].
  rewrite G1. cbn [app]. rewrite G2. cbn [app]. rewrite D, C, T, P.
  reflexivity.
Qed.

(** The handler after the upload. *)
Lemma run_to_model (env : environ) (w : services) (d : detail)
      (transcript : string) :
  transcript_uploaded env w d transcript ->
  run (lambda_handler env w (Some d))
  = match model_answer env w d transcript with
    | Return r =>
        store_summary w (OUTPUT_BUCKET env) (TranscriptionJobName d ++ ".txt") r
          (through_model (OUTPUT_BUCKET env) (TranscriptionJobName d)
             (NamedTemporaryFile w) transcript)
    | Raise e =>
        (through_model (OUTPUT_BUCKET env) (TranscriptionJobName d)
           (NamedTemporaryFile w) transcript,
         if is_ClientError e
         then Return {| statusCode := 400; body := str_exn e |}
         else Raise e)
    end.
Proof.
  intros [R U]. rewrite (run_to_upload R). unfold_history.
  unfold upload_and_summarize, bind, perform, try_except, ret.
  rewrite U. cbn [app].
  destruct (invoke_model w _ modelId (request_body transcript)) as [r | e];
    [reflexivity |].
  now destruct (is_ClientError e).
Qed.

(** X14.  When the upload of the converted transcript raises, whatever the
    exception, the handler answers with status code 400 and a message with
    the object and the error, and the model is not invoked. *)
Theorem upload_failure_is_reported
        (env : environ) (w : services) (d : detail)
        (transcript : string) (e : exn) :
  transcript_ready env w d transcript ->
  upload_file w (through_download (OUTPUT_BUCKET env) (TranscriptionJobName d))
    (NamedTemporaryFile w) (OUTPUT_BUCKET env)
    (txt_key (TranscriptionJobName d)) = Raise e ->
  run (lambda_handler env w (Some d))
  = (through_upload (OUTPUT_BUCKET env) (TranscriptionJobName d)
       (NamedTemporaryFile w),
     Return {| statusCode := 400;
               body := "Error uploading converted file to s3://"
                       ++ OUTPUT_BUCKET env ++ "/transcription/"
                       ++ (TranscriptionJobName d ++ ".txt")
                       ++ ": " ++ str_exn e |}).
Proof.
  intros R U. rewrite (run_to_upload R). unfold_history.
  unfold upload_and_summarize, bind, perform, try_except, ret, any_exception.
  now rewrite U.
Qed.

Lemma sample_ready :
  forall upload model put,
    transcript_ready sample_env
      (answering (Return tt) (Return (Document (Some hello_world))) true
         upload model put)
      (job "COMPLETED")
      ("spk_0: Hello." ++ newline ++ "spk_1: world" ++ newline).
Proof.
  intros. split; [repeat split |].
  split; [| split; reflexivity].
  exists (Document (Some hello_world)). split; reflexivity.
Qed.

Lemma upload_failure_is_reported_witness :
  transcript_ready sample_env
    (answering (Return tt) (Return (Document (Some hello_world))) true
       (Raise (Exception_ "Connection reset")) (model_ok "") put_ok)
    (job "COMPLETED")
    ("spk_0: Hello." ++ newline ++ "spk_1: world" ++ newline)
  /\ run (lambda_handler sample_env
            (answering (Return tt) (Return (Document (Some hello_world))) true
               (Raise (Exception_ "Connection reset")) (model_ok "") put_ok)
            (Some (job "COMPLETED")))
     = (through_upload "my-bucket" "summarizer-lmrca78v3tug" "/tmp/tmpk3v9x2.txt",
        Return {| statusCode := 400;
                  body := "Error uploading converted file to s3://my-bucket/transcription/summarizer-lmrca78v3tug.txt: Connection reset" |}).
Proof.
  split; [apply sample_ready |].
  exact (@upload_failure_is_reported sample_env _ (job "COMPLETED") _
           (Exception_ "Connection reset") (sample_ready _ _ _) eq_refl).
Defined.

(** X15.  When the call of the model raises, the invocation ends there, with
    no summary stored: a [ClientError] is answered with status code 400 and
    the text of the error; any other exception leaves the handler. *)
Theorem model_failure
        (env : environ) (w : services) (d : detail)
        (transcript : string) (e : exn) :
  transcript_uploaded env w d transcript ->
  model_answer env w d transcript = Raise e ->
  run (lambda_handler env w (Some d))
  = (through_model (OUTPUT_BUCKET env) (TranscriptionJobName d)
       (NamedTemporaryFile w) transcript,
     if is_ClientError e
     then Return {| statusCode := 400; body := str_exn e |}
     else Raise e).
Proof. intros U A. rewrite (run_to_model U), A. reflexivity. Qed.

Lemma sample_uploaded :
  forall model put,
    transcript_uploaded sample_env
      (answering (Return tt) (Return (Document (Some hello_world))) true
         (Return tt) model put)
      (job "COMPLETED")
      ("spk_0: Hello." ++ newline ++ "spk_1: world" ++ newline).
Proof. intros. split; [apply sample_ready | reflexivity]. Qed.

Lemma model_failure_witness :
  transcript_uploaded sample_env
    (answering (Return tt) (Return (Document (Some hello_world))) true
       (Return tt) (Raise (ClientError "AccessDeniedException")) put_ok)
    (job "COMPLETED")
    ("spk_0: Hello." ++ newline ++ "spk_1: world" ++ newline)
  /\ run (lambda_handler sample_env
            (answering (Return tt) (Return (Document (Some hello_world))) true
               (Return tt) (Raise (ClientError "AccessDeniedException")) put_ok)
            (Some (job "COMPLETED")))
     = (through_model "my-bucket" "summarizer-lmrca78v3tug" "/tmp/tmpk3v9x2.txt"
          ("spk_0: Hello." ++ newline ++ "spk_1: world" ++ newline),
        Return {| statusCode := 400; body := "AccessDeniedException" |}).
Proof.
  split; [apply sample_uploaded |].
  exact (@model_failure sample_env _ (job "COMPLETED") _
           (ClientError "AccessDeniedException") (sample_uploaded _ _) eq_refl).
Defined.

(** X16.  When the model answers with an HTTP status other than 200, the
    handler returns that status as its status code and stores no summary:
    the call of the model is the last call. *)
Theorem model_status_is_forwarded
        (env : environ) (w : services) (d : detail)
        (transcript : string) (r : model_response) :
  transcript_uploaded env w d transcript ->
  model_answer env w d transcript = Return r ->
  model_status r <> 200 ->
  exists message,
    run (lambda_handler env w (Some d))
    = (through_model (OUTPUT_BUCKET env) (TranscriptionJobName d)
         (NamedTemporaryFile w) transcript,
       Return {| statusCode := model_status r; body := message |}).
Proof.
  intros U A N. rewrite (run_to_model U), A.
  unfold store_summary, ret. apply Nat.eqb_neq in N. rewrite N. cbn [negb].
  destruct (model_body r); eexists; reflexivity.
Qed.

Lemma model_status_is_forwarded_witness :
  transcript_uploaded sample_env
    (answering (Return tt) (Return (Document (Some hello_world))) true
       (Return tt) (Return {| model_status := 429; model_body := None |}) put_ok)
    (job "COMPLETED")
    ("spk_0: Hello." ++ newline ++ "spk_1: world" ++ newline)
  /\ 429 <> 200
  /\ exists message,
       run (lambda_handler sample_env
              (answering (Return tt) (Return (Document (Some hello_world))) true
                 (Return tt)
                 (Return {| model_status := 429; model_body := None |}) put_ok)
              (Some (job "COMPLETED")))
       = (through_model "my-bucket" "summarizer-lmrca78v3tug" "/tmp/tmpk3v9x2.txt"
            ("spk_0: Hello." ++ newline ++ "spk_1: world" ++ newline),
          Return {| statusCode := 429; body := message |}).
Proof.
  split; [apply sample_uploaded |]. split; [discriminate |].
  exact (@model_status_is_forwarded sample_env _ (job "COMPLETED") _
           {| model_status := 429; model_body := None |}
           (sample_uploaded _ _) eq_refl ltac:(discriminate)).
Defined.

(** X17.  When every step succeeds, the six calls are made in order, the
    model is asked with the request built from the converted transcript,
    the text it answers is what is put under [processed/<job>.txt], and the
    handler returns status code 200 with that key; unless the put answers
    with another HTTP status, which is then the status code returned. *)
Theorem summary_is_stored
        (env : environ) (w : services) (d : detail)
        (transcript summary : string) (r : model_response)
        (b : streaming_body) (pr : put_response) :
  transcript_uploaded env w d transcript ->
  model_answer env w d transcript = Return r ->
  model_status r = 200 ->
  model_body r = Some b ->
  content_text b = Return summary ->
  put_object w
    (through_model (OUTPUT_BUCKET env) (TranscriptionJobName d)
       (NamedTemporaryFile w) transcript)
    summary (OUTPUT_BUCKET env) (processed_key (TranscriptionJobName d))
  = Return pr ->
  run (lambda_handler env w (Some d))
  = (through_put (OUTPUT_BUCKET env) (TranscriptionJobName d)
       (NamedTemporaryFile w) transcript summary,
     Return (if Nat.eqb (put_status pr) 200
             then {| statusCode := 200;
                     body := processed_key (TranscriptionJobName d) |}
             else {| statusCode := put_status pr; body := put_str pr |})).
Proof.
  intros U A S B T P. rewrite (run_to_model U), A.
  unfold store_summary, bind, lift, perform, ret.
  rewrite S, B, T. cbn [Nat.eqb negb].
  unfold processed_key in P |- *. rewrite P.
  now destruct (Nat.eqb (put_status pr) 200).
Qed.

Lemma summary_is_stored_witness :
  run (lambda_handler sample_env
         (answering (Return tt) (Return (Document (Some hello_world))) true
            (Return tt) (model_ok "Two greetings.") put_ok)
         (Some (job "COMPLETED")))
  = (through_put "my-bucket" "summarizer-lmrca78v3tug" "/tmp/tmpk3v9x2.txt"
       ("spk_0: Hello." ++ newline ++ "spk_1: world" ++ newline)
       "Two greetings.",
     Return {| statusCode := 200;
               body := "processed/summarizer-lmrca78v3tug.txt" |}).
Proof.
  exact (@summary_is_stored sample_env
           (answering (Return tt) (Return (Document (Some hello_world))) true
              (Return tt) (model_ok "Two greetings.") put_ok)
           (job "COMPLETED")
           ("spk_0: Hello." ++ newline ++ "spk_1: world" ++ newline)
           "Two greetings."
           {| model_status := 200;
              model_body := Some {| body_str := "<StreamingBody>";
                                    content_text := Return "Two greetings." |} |}
           {| body_str := "<StreamingBody>";
              content_text := Return "Two greetings." |}
           {| put_status := 200; put_str := "{'ResponseMetadata': ...}" |}
           (sample_uploaded _ _) eq_refl eq_refl eq_refl eq_refl eq_refl).
Defined.

(** X13.  The check after the conversion: when the temporary file has no
    name or is not there, the handler answers with status code 400 and
    uploads nothing. *)
Theorem missing_output_file_is_reported
        (env : environ) (w : services) (d : detail)
        (f : json_file) (transcript : string) :
  looked_up w d ->
  download_file w (lookups (TranscriptionJobName d)) (OUTPUT_BUCKET env)
    (json_key (TranscriptionJobName d)) (local_json (TranscriptionJobName d))
  = Return f ->
  convert_to_txt_file (NamedTemporaryFile w) f
  = Return (Some (transcript, NamedTemporaryFile w)) ->
  truthy (NamedTemporaryFile w) && path_exists w (NamedTemporaryFile w) = false ->
  run (lambda_handler env w (Some d))
  = (through_download (OUTPUT_BUCKET env) (TranscriptionJobName d),
     Return {| statusCode := 400;
               body := "Error converting transcription to txt file" |}).
Proof.
  intros [S [G1 G2]] D C M. unfold_history.
  unfold run, lambda_handler, completed, bind, perform, try_except, lift,
    throw, ret, str_in.
  rewrite S. cbn [existsb String.eqb Ascii.eqb Bool.eqb orb app].
  rewrite G1. cbn [app]. rewrite G2. cbn [app]. rewrite D, C.
  rewrite <- negb_andb, M. reflexivity.
Qed.

Lemma missing_output_file_is_reported_witness :
  looked_up (answering (Return tt) (Return (Document (Some hello_world)))
               false (Return tt) (model_ok "") put_ok) (job "COMPLETED")
  /\ run (lambda_handler sample_env
            (answering (Return tt) (Return (Document (Some hello_world)))
               false (Return tt) (model_ok "") put_ok)
            (Some (job "COMPLETED")))
     = (through_download "my-bucket" "summarizer-lmrca78v3tug",
        Return {| statusCode := 400;
                  body := "Error converting transcription to txt file" |}).
Proof.
  assert (L : looked_up (answering (Return tt)
                           (Return (Document (Some hello_world)))
                           false (Return tt) (model_ok "") put_ok)
                (job "COMPLETED")).
  { repeat split. }
  split; [exact L |].
  exact (@missing_output_file_is_reported sample_env _ (job "COMPLETED")
           (Document (Some hello_world))
           ("spk_0: Hello." ++ newline ++ "spk_1: world" ++ newline)
           L eq_refl eq_refl eq_refl).
Defined.

(** X18.  Status code 200 is returned only at the end of the whole
    pipeline: whenever the handler returns it, the calls of the invocation
    are the two lookups, the download, the upload, the model and the put,
    in this order. *)
Theorem success_needs_every_step
        (env : environ) (w : services) (event : option detail) (r : response) :
  snd (run (lambda_handler env w event)) = Return r ->
  statusCode r = 200 ->
  map stage (fst (run (lambda_handler env w event))) = stages.
Proof.
  handler_cases; cbn [fst snd map stage]; intros [= <-];
    cbn [statusCode]; intros S; try discriminate S; try reflexivity.
  all: rewrite S in *; discriminate.
Qed.

Lemma success_needs_every_step_witness :
  snd (run (lambda_handler sample_env
              (world (Document (Some hello_world)) "Two greetings.")
              (sample_event "COMPLETED")))
  = Return {| statusCode := 200;
              body := "processed/summarizer-lmrca78v3tug.txt" |}
  /\ map stage
       (fst (run (lambda_handler sample_env
                    (world (Document (Some hello_world)) "Two greetings.")
                    (sample_event "COMPLETED"))))
     = stages.
Proof.
  split; [reflexivity |].
  apply (@success_needs_every_step sample_env
           (world (Document (Some hello_world)) "Two greetings.")
           (sample_event "COMPLETED")
           {| statusCode := 200;
              body := "processed/summarizer-lmrca78v3tug.txt" |});
    reflexivity.
Defined.

(** X19.  In every invocation, whatever the event and whatever the services
    answer, the calls made are an initial segment of: lookup, lookup,
    download, upload, model, put.  No step is repeated or taken out of
    order. *)
Theorem calls_in_order
        (env : environ) (w : services) (event : option detail) :
  initial_segment (map stage (fst (run (lambda_handler env w event)))) stages
  = true.
Proof. handler_cases; reflexivity. Qed.

Lemma within_job_download (bucket name local : string) :
  within_job bucket name
    (DownloadFile bucket ("transcription/" ++ name ++ ".json") local) = true.
Proof.
  unfold within_job, job_keys. cbn [s3_target existsb].
  now rewrite !String.eqb_refl.
Qed.

Lemma within_job_upload (bucket name tmp : string) :
  within_job bucket name
    (UploadFile tmp bucket ("transcription/" ++ name ++ ".txt")) = true.
Proof.
  unfold within_job, job_keys. cbn [s3_target existsb].
  rewrite !String.eqb_refl. cbn [andb]. now rewrite orb_true_r.
Qed.

Lemma within_job_put (bucket name text : string) :
  within_job bucket name
    (PutObject text bucket ("processed/" ++ name ++ ".txt")) = true.
Proof.
  unfold within_job, job_keys. cbn [s3_target existsb].
  rewrite !String.eqb_refl. cbn [andb]. now rewrite !orb_true_r.
Qed.

(** X20.  Every call on S3, in every invocation, addresses the bucket of
    [OUTPUT_BUCKET] and one of the three objects of the job of the event:
    [transcription/<job>.json], [transcription/<job>.txt],
    [processed/<job>.txt]. *)
Theorem calls_stay_within_job
        (env : environ) (w : services) (d : detail) :
  forallb (within_job (OUTPUT_BUCKET env) (TranscriptionJobName d))
    (fst (run (lambda_handler env w (Some d)))) = true.
Proof.
  handler_cases; cbn [fst forallb];
    rewrite ?within_job_download, ?within_job_upload, ?within_job_put;
    reflexivity.
Qed.

(** X21.  The rule of the stack forwards COMPLETED and FAILED events only:
    an event it forwards that is not COMPLETED is answered, once the job
    lookup has returned, as a failed job, with status code 400; the branch
    for other statuses is not reached. *)
Theorem forwarded_event_not_completed_is_failed
        (env : environ) (w : services) (d : detail) :
  Stack.rule_matches (TranscriptionJobName d) (TranscriptionJobStatus d) = true ->
  TranscriptionJobStatus d <> "COMPLETED" ->
  get_transcription_job w [] (TranscriptionJobName d) = Return tt ->
  run (lambda_handler env w (Some d))
  = ([GetTranscriptionJob (TranscriptionJobName d)],
     Return {| statusCode := 400;
               body := "Unable to process, job " ++ TranscriptionJobName d
                       ++ " failed." |}).
Proof.
  intros R C G. unfold Stack.rule_matches in R.
  apply andb_prop in R. destruct R as [R _].
  unfold Stack.TranscriptionJobStatus in R. cbn [existsb] in R.
  rewrite orb_false_r in R. apply orb_prop in R.
  destruct R as [R | R]; apply String.eqb_eq in R.
  - now elim C.
  - handler_unfold. cbn [app existsb]. rewrite G, R. reflexivity.
Qed.

Lemma forwarded_event_not_completed_is_failed_witness :
  Stack.rule_matches (TranscriptionJobName (job "FAILED"))
    (TranscriptionJobStatus (job "FAILED")) = true
  /\ TranscriptionJobStatus (job "FAILED") <> "COMPLETED"
  /\ run (lambda_handler sample_env (world NotJSON "") (Some (job "FAILED")))
     = ([GetTranscriptionJob (TranscriptionJobName (job "FAILED"))],
        Return {| statusCode := 400;
                  body := "Unable to process, job "
                          ++ TranscriptionJobName (job "FAILED") ++ " failed." |}).
Proof.
  split; [reflexivity |]. split; [discriminate |].
  apply (@forwarded_event_not_completed_is_failed sample_env
           (world NotJSON "") (job "FAILED"));
    [reflexivity | discriminate | reflexivity].
Defined.

(** For a COMPLETED job whose lookups return, the third call is the
    download of [transcription/<job>.json], whatever comes after. *)
Lemma download_is_third_call (env : environ) (w : services) (d : detail) :
  looked_up w d ->
  nth_error (fst (run (lambda_handler env w (Some d)))) 2
  = Some (DownloadFile (OUTPUT_BUCKET env)
            (json_key (TranscriptionJobName d))
            (local_json (TranscriptionJobName d))).
Proof.
  intros [S [G1 G2]]. unfold json_key, local_json. handler_unfold.
  rewrite S. cbn [existsb String.eqb Ascii.eqb Bool.eqb orb app].
  rewrite G1. cbn [app]. rewrite G2. cbn [app].
  repeat (cbn [app fst snd is_ClientError negb]; innermost); reflexivity.
Qed.

End SummarizerHandlerMore.

(** * More on the ingest handler *)

Section IngestHandlerMore.

Import Ingest Scenario.

(** The handler, path by path. *)
Lemma ingest_run (env : environ) (w : services) (event : s3_event) :
  exists name,
    job_name w = Return name
    /\ run (lambda_handler env w event)
       = if String.eqb (object_key event) "source/"
         then ([], Return {| statusCode := 200;
                             body := "Source folder, skipping" |})
         else if truthy (snd (splitext (object_key event)))
         then ([StartTranscriptionJob (submitted env event name)],
               Return
                 match start_transcription_job w [] (submitted env event name) with
                 | Return status => {| statusCode := status; body := name |}
                 | Raise e => {| statusCode := 500; body := str_exn e |}
                 end)
         else ([], Return {| statusCode := 400;
                             body := "invalid file name " ++ object_key event |}).
Proof.
  destruct (job_name_returns w) as [cs [J _]].
  exists ("summarizer-" ++ string_of_list_ascii cs). split; [exact J |].
  unfold run, lambda_handler, bind, lift, ret, try_except, perform, any_exception.
  destruct (String.eqb (object_key event) "source/"); [reflexivity |].
  rewrite J.
  destruct (truthy (snd (splitext (object_key event)))); [| reflexivity].
  cbn [negb app]. fold (submitted env event ("summarizer-" ++ string_of_list_ascii cs)).
  destruct (start_transcription_job w [] _) as [status | e]; [| reflexivity].
  destruct (Nat.eqb_spec status 200) as [-> | N]; reflexivity.
Qed.

(** X22.  The ingest handler never lets an exception out: for every event
    and whatever the Transcribe client does, it returns a result. *)
Theorem ingest_always_returns
        (env : environ) (w : services) (event : s3_event) :
  exists r, snd (run (lambda_handler env w event)) = Return r.
Proof.
  destruct (ingest_run env w event) as [name [_ R]]. rewrite R.
  destruct (String.eqb (object_key event) "source/"); [now eexists |].
  destruct (truthy (snd (splitext (object_key event)))); now eexists.
Qed.

(** X23.  For a key other than [source/] that has an extension, exactly one
    transcription job is submitted, under the generated name.  The result
    carries the HTTP status of the service as its status code and the job
    name as its body; when the client raises, the status code is 500 and the
    body is the text of the exception. *)
Theorem ingest_submits_one_job
        (env : environ) (w : services) (event : s3_event) :
  object_key event <> "source/" ->
  snd (splitext (object_key event)) <> "" ->
  exists name,
    job_name w = Return name
    /\ run (lambda_handler env w event)
       = ([StartTranscriptionJob (submitted env event name)],
          Return
            match start_transcription_job w [] (submitted env event name) with
            | Return status => {| statusCode := status; body := name |}
            | Raise e => {| statusCode := 500; body := str_exn e |}
            end).
Proof.
  intros K X. destruct (ingest_run env w event) as [name [J R]].
  exists name. split; [exact J |]. rewrite R.
  apply String.eqb_neq in K. rewrite K.
  destruct (snd (splitext (object_key event))); [now elim X | reflexivity].
Qed.

Lemma ingest_submits_one_job_witness :
  object_key (sample_event "source/clip.mp3") <> "source/"
  /\ snd (splitext (object_key (sample_event "source/clip.mp3"))) <> ""
  /\ exists name,
       job_name (transcribe_answering (Raise (Exception_ "LimitExceeded")))
       = Return name
       /\ run (lambda_handler sample_env
                 (transcribe_answering (Raise (Exception_ "LimitExceeded")))
                 (sample_event "source/clip.mp3"))
          = ([StartTranscriptionJob
                (submitted sample_env (sample_event "source/clip.mp3") name)],
             Return
               match start_transcription_job
                       (transcribe_answering (Raise (Exception_ "LimitExceeded")))
                       []
                       (submitted sample_env (sample_event "source/clip.mp3") name)
               with
               | Return status => {| statusCode := status; body := name |}
               | Raise e => {| statusCode := 500; body := str_exn e |}
               end).
Proof.
  split; [discriminate |]. split; [discriminate |].
  apply (@ingest_submits_one_job sample_env
           (transcribe_answering (Raise (Exception_ "LimitExceeded")))
           (sample_event "source/clip.mp3")); discriminate.
Defined.

(** [rfind] gives the last index, or -1. *)
Lemma rfind_from_last_index (c : ascii) (s : string) :
  forall i found,
    rfind_from c s i found
    = match last_index c s with
      | Some k => (i + Z.of_nat k)%Z
      | None => found
      end.
Proof.
  induction s as [| a r IH]; intros i found; [reflexivity |].
  cbn [rfind_from last_index]. rewrite IH.
  destruct (last_index c r) as [k |]; [lia |].
  destruct (Ascii.eqb a c); [cbn; lia | reflexivity].
Qed.

Lemma rfind_last_index (c : ascii) (s : string) :
  rfind c s = match last_index c s with
              | Some k => Z.of_nat k
              | None => (-1)%Z
              end.
Proof.
  unfold rfind. rewrite rfind_from_last_index.
  now destruct (last_index c s).
Qed.

Lemma last_index_split (c : ascii) (s : string) :
  forall k,
    last_index c s = Some k ->
    exists pre post,
      s = pre ++ String c post
      /\ String.length pre = k
      /\ last_index c post = None.
Proof.
  induction s as [| a r IH]; intros k; [discriminate |].
  cbn [last_index]. destruct (last_index c r) as [k' |] eqn:L.
  - intros [= <-]. destruct (IH k' eq_refl) as [pre [post [E [Len N]]]].
    exists (String a pre), post. subst r. repeat split; simpl; auto.
  - destruct (Ascii.eqb_spec a c) as [-> | _]; [| discriminate].
    intros [= <-]. exists "", r. repeat split. exact L.
Qed.

Lemma last_index_append (c : ascii) (a b : string) :
  last_index c (a ++ b)
  = match last_index c b with
    | Some m => Some (String.length a + m)
    | None => last_index c a
    end.
Proof.
  induction a as [| x a IH]; cbn [append last_index String.length].
  - now destruct (last_index c b).
  - rewrite IH. now destruct (last_index c b).
Qed.

Lemma last_index_bound (c : ascii) (s : string) (k : nat) :
  last_index c s = Some k -> k < String.length s.
Proof.
  revert k. induction s as [| a r IH]; intros k; [discriminate |].
  cbn [last_index String.length]. destruct (last_index c r) as [k' |].
  - intros [= <-]. specialize (IH k' eq_refl). lia.
  - destruct (Ascii.eqb a c); [intros [= <-]; lia | discriminate].
Qed.

Lemma last_index_absent (c : ascii) (s : string) :
  last_index c s = None ->
  forallb (fun a => negb (Ascii.eqb a c)) (list_ascii_of_string s) = true.
Proof.
  induction s as [| a r IH]; [reflexivity |].
  cbn [last_index list_ascii_of_string forallb].
  destruct (last_index c r); [discriminate |].
  destruct (Ascii.eqb a c); [discriminate |]. intros _. now apply IH.
Qed.

Lemma substring_whole (s : string) : substring 0 (String.length s) s = s.
Proof. induction s as [| a r IH]; simpl; congruence. Qed.

Lemma substring_skip (pre t : string) (n : nat) :
  substring (String.length pre) n (pre ++ t) = substring 0 n t.
Proof. induction pre as [| a pre IH]; [reflexivity | exact IH]. Qed.

Lemma substring_take (pre t : string) :
  substring 0 (String.length pre) (pre ++ t) = pre.
Proof.
  induction pre as [| a pre IH]; simpl; [now destruct t | congruence].
Qed.

Lemma length_append (a b : string) :
  String.length (a ++ b) = String.length a + String.length b.
Proof. induction a as [| x a IH]; simpl; congruence. Qed.

Lemma splitext_scan_cases (fuel : nat) (p : string) :
  forall i d,
    splitext_scan fuel p i d = (p, "")
    \/ splitext_scan fuel p i d
       = (substring 0 d p, substring d (String.length p - d) p).
Proof.
  induction fuel as [| fuel IH]; intros i d; [now left |].
  cbn [splitext_scan]. destruct (Nat.ltb i d); [| now left].
  destruct (negb _); [now right | apply IH].
Qed.

(** What [os.path.splitext] promises: a non-empty extension is a dot
    followed by characters without dot or slash, and the two parts make
    up the path. *)
Lemma splitext_extension (p : string) :
  snd (splitext p) <> "" ->
  exists root fmt,
    splitext p = (root, "." ++ fmt)
    /\ p = root ++ "." ++ fmt
    /\ plain fmt = true.
Proof.
  unfold splitext. rewrite !rfind_last_index.
  destruct (last_index "." p) as [d |] eqn:D.
  2:{ match goal with
      | |- context [(?a >? ?b)%Z] => destruct (Z.gtb_spec a b) as [G | G]
      end; [destruct (last_index "/" p); lia | intros H; now elim H]. }
  destruct (Z.gtb_spec (Z.of_nat d)
              match last_index "/" p with
              | Some k => Z.of_nat k
              | None => (-1)%Z
              end) as [G | G]; [| intros H; now elim H].
  rewrite Nat2Z.id.
  destruct (splitext_scan_cases (S (String.length p)) p
              (Z.to_nat (match last_index "/" p with
                         | Some k => Z.of_nat k
                         | None => (-1)%Z
                         end + 1)) d) as [E | E];
    rewrite E; [intros H; now elim H | intros _].
  destruct (last_index_split _ _ D) as [pre [post [-> [Len N]]]].
  subst d. exists pre, post.
  rewrite substring_take, substring_skip, length_append.
  replace (String.length pre + String.length (String "." post) - String.length pre)
    with (String.length (String "." post)) by lia.
  rewrite substring_whole. split; [reflexivity |]. split; [reflexivity |].
  unfold plain.
  assert (S : last_index "/" post = None).
  { rewrite last_index_append in G. cbn [last_index] in G.
    destruct (last_index "/" post) as [m |]; [exfalso; lia | reflexivity]. }
  apply last_index_absent in N, S.
  apply forallb_forall. intros a I.
  rewrite forallb_forall in N, S. now rewrite (N a I), (S a I).
Qed.

(** X24.  The media format submitted for a job is the end of the object
    key: the key is some root, a dot, and the format, and the format holds
    no dot and no slash.  The media URI is [s3://], the bucket of the
    event, a slash and the key. *)
Theorem media_format_ends_key
        (env : environ) (w : services) (event : s3_event)
        (request : transcription_request) :
  fst (run (lambda_handler env w event)) = [StartTranscriptionJob request] ->
  (exists root,
     object_key event = root ++ "." ++ MediaFormat request)
  /\ plain (MediaFormat request) = true
  /\ MediaFileUri request
     = "s3://" ++ bucket_name event ++ "/" ++ object_key event.
Proof.
  destruct (ingest_run env w event) as [name [_ R]]. rewrite R. clear R.
  destruct (String.eqb (object_key event) "source/"); [discriminate |].
  destruct (truthy (snd (splitext (object_key event)))) eqn:T; [| discriminate].
  cbn [fst]. intros [= <-].
  apply truthy_nonempty in T.
  destruct (splitext_extension _ T) as [root [fmt [E [K P]]]].
  unfold submitted. cbn [MediaFormat MediaFileUri]. rewrite E. cbn [snd].
  assert (F : substring 1 (String.length ("." ++ fmt) - 1) ("." ++ fmt) = fmt).
  { simpl. rewrite Nat.sub_0_r. apply substring_whole. }
  rewrite F.
  split; [now exists root |]. split; [exact P | reflexivity].
Qed.

Lemma media_format_ends_key_witness :
  exists request,
    fst (run (lambda_handler sample_env world (sample_event "source/talk.v2.MP3")))
    = [StartTranscriptionJob request]
    /\ (exists root, "source/talk.v2.MP3" = root ++ "." ++ MediaFormat request)
    /\ plain (MediaFormat request) = true
    /\ MediaFileUri request = "s3://uploads/source/talk.v2.MP3".
Proof.
  eexists. split; [reflexivity |].
  apply (@media_format_ends_key sample_env world
           (sample_event "source/talk.v2.MP3")).
  reflexivity.
Defined.

End IngestHandlerMore.

(** * The two handlers together *)

Section Pipeline.

Import Scenario.

(** X26.  The two handlers meet on one object.  When the ingest handler
    submits a job, the state changes of that job pass the rule of the stack;
    and the summarizer, run with the same [OUTPUT_BUCKET] on the COMPLETED
    event of that job, downloads, as its third call, the bucket and key that
    the ingest handler gave to Transcribe as the output location. *)
Theorem summarizer_fetches_ingest_output
        (ienv : Ingest.environ) (iw : Ingest.services) (event : Ingest.s3_event)
        (request : Ingest.transcription_request)
        (env : Summarizer.environ) (w : Summarizer.services)
        (d : Summarizer.detail) :
  fst (run (Ingest.lambda_handler ienv iw event))
  = [Ingest.StartTranscriptionJob request] ->
  Summarizer.OUTPUT_BUCKET env = Ingest.OUTPUT_BUCKET ienv ->
  Summarizer.TranscriptionJobName d = Ingest.TranscriptionJobName request ->
  looked_up w d ->
  Stack.rule_matches (Summarizer.TranscriptionJobName d)
    (Summarizer.TranscriptionJobStatus d) = true
  /\ nth_error (fst (run (Summarizer.lambda_handler env w (Some d)))) 2
     = Some (Summarizer.DownloadFile
               (Ingest.OutputBucketName request) (Ingest.OutputKey request)
               (local_json (Summarizer.TranscriptionJobName d))).
Proof.
  intros I B N L.
  destruct (ingest_run ienv iw event) as [name [J R]].
  rewrite R in I. clear R.
  destruct (String.eqb (Ingest.object_key event) "source/"); [discriminate |].
  destruct (truthy (snd (splitext (Ingest.object_key event)))); [| discriminate].
  cbn [fst] in I. injection I as <-.
  cbn [submitted Ingest.TranscriptionJobName Ingest.OutputBucketName
         Ingest.OutputKey] in *.
  destruct (job_name_returns iw) as [cs [J' _]].
  rewrite J in J'. injection J' as ->.
  split.
  - destruct L as [S _]. rewrite S, N.
    apply rule_matches_prefixed. simpl. tauto.
  - rewrite (download_is_third_call env L), B, N. reflexivity.
Qed.

Lemma summarizer_fetches_ingest_output_witness :
  exists request,
    fst (run (Ingest.lambda_handler Ingest.sample_env Ingest.world
                (Ingest.sample_event "source/clip.mp3")))
    = [Ingest.StartTranscriptionJob request]
    /\ Stack.rule_matches (Ingest.TranscriptionJobName request) "COMPLETED" = true
    /\ nth_error
         (fst (run (Summarizer.lambda_handler
                      {| Summarizer.OUTPUT_BUCKET := "my_bucket" |}
                      (Summarizer.world Summarizer.NotJSON "")
                      (Some {| Summarizer.TranscriptionJobName :=
                                 Ingest.TranscriptionJobName request;
                               Summarizer.TranscriptionJobStatus := "COMPLETED" |}))))
         2
       = Some (Summarizer.DownloadFile
                 (Ingest.OutputBucketName request) (Ingest.OutputKey request)
                 (local_json (Ingest.TranscriptionJobName request))).
Proof.
  eexists. split; [reflexivity |].
  apply (@summarizer_fetches_ingest_output Ingest.sample_env Ingest.world
           (Ingest.sample_event "source/clip.mp3") _
           {| Summarizer.OUTPUT_BUCKET := "my_bucket" |}
           (Summarizer.world Summarizer.NotJSON "")
           {| Summarizer.TranscriptionJobName := _;
              Summarizer.TranscriptionJobStatus := "COMPLETED" |});
    [reflexivity | reflexivity | reflexivity | repeat split].
Defined.

End Pipeline.

(** * Keys without a dot *)

Section KeysWithoutDot.

Import Ingest Scenario.

Lemma last_index_none (c : ascii) (s : string) :
  forallb (fun a => negb (Ascii.eqb a c)) (list_ascii_of_string s) = true ->
  last_index c s = None.
Proof.
  induction s as [| a r IH]; [reflexivity |].
  cbn [list_ascii_of_string forallb last_index].
  intros H. apply andb_prop in H. destruct H as [A R].
  rewrite (IH R). apply negb_true_iff in A. now rewrite A.
Qed.

(** X25.  A key in which no dot occurs, other than [source/] itself, is
    refused: the handler answers with status code 400 and the message
    naming the key, and submits no job. *)
Theorem key_without_dot_is_refused
        (env : environ) (w : services) (event : s3_event) :
  forallb (fun a => negb (Ascii.eqb a "."))
          (list_ascii_of_string (object_key event)) = true ->
  object_key event <> "source/" ->
  invalid_input (object_key event) (run (lambda_handler env w event)).
Proof.
  intros D K. apply last_index_none in D.
  destruct (ingest_run env w event) as [name [_ R]].
  unfold invalid_input. rewrite R.
  apply String.eqb_neq in K. rewrite K.
  unfold splitext. rewrite !rfind_last_index, D.
  match goal with
  | |- context [(?a >? ?b)%Z] => destruct (Z.gtb_spec a b) as [G | G]
  end; [destruct (last_index "/" (object_key event)); lia | reflexivity].
Qed.

Lemma key_without_dot_is_refused_witness :
  forallb (fun a => negb (Ascii.eqb a "."))
          (list_ascii_of_string (object_key (sample_event "source/2024/clip")))
  = true
  /\ object_key (sample_event "source/2024/clip") <> "source/"
  /\ invalid_input "source/2024/clip"
       (run (lambda_handler sample_env world (sample_event "source/2024/clip"))).
Proof.
  split; [reflexivity |]. split; [discriminate |].
  apply (@key_without_dot_is_refused sample_env world
           (sample_event "source/2024/clip")); [reflexivity | discriminate].
Defined.

End KeysWithoutDot.

(** * The speakers of the lines *)

Section Attribution.

Import Summarizer Scenario.

Lemma run_labels_cons2 (x y : string) (rest : list string) :
  run_labels (x :: y :: rest)
  = if String.eqb x y then run_labels (y :: rest) else x :: run_labels (y :: rest).
Proof. reflexivity. Qed.

(** The loop invariant: the lines closed from here on, followed by the line
    still open, belong to the runs that start with the current speaker. *)
Lemma fold_attributed (items : list item) :
  forall st s,
    current_speaker st = Some s ->
    truthy (current_text st) = true ->
    words_nonempty items ->
    exists more s',
      output (fold_left loop_body items st) = app (output st) more
      /\ current_speaker (fold_left loop_body items st) = Some s'
      /\ truthy (current_text (fold_left loop_body items st)) = true
      /\ Forall2 attributed
           (app more [line (Some s')
                        (current_text (fold_left loop_body items st))])
           (run_labels (s :: speakers items)).
Proof.
  induction items as [| it rest IH]; intros st s Hs Ht W.
  - exists [], s. cbn [fold_left speakers run_labels app].
    rewrite app_nil_r. repeat split; auto.
    constructor; [| constructor]. now exists (current_text st).
  - pose proof (words_nonempty_tail W) as W'.
    destruct it as [c l | c | t]; cbn [fold_left speakers].
    + assert (Hc : truthy c = true).
      { apply truthy_nonempty. apply (W c l). now left. }
      rewrite run_labels_cons2.
      destruct (String.eqb_spec s l) as [-> | Hne].
      * rewrite (loop_body_same st c Hs).
        match goal with
        | |- context [fold_left loop_body rest ?st1] =>
            destruct (IH st1 l eq_refl) as [more [s' [O [S' [T F]]]]]; auto
        end.
        { cbn [current_text]. now rewrite truthy_append, Ht. }
        exists more, s'. repeat split; auto.
      * assert (N : str_ne l (current_speaker st) = true).
        { rewrite Hs, str_ne_spec.
          destruct (String.eqb_spec s l); [contradiction | reflexivity]. }
        rewrite (loop_body_change st c l N Ht).
        match goal with
        | |- context [fold_left loop_body rest ?st1] =>
            destruct (IH st1 l eq_refl) as [more [s' [O [S' [T F]]]]]; auto
        end.
        cbn [output] in O.
        exists (line (current_speaker st) (current_text st) :: more), s'.
        split; [rewrite O, <- app_assoc; reflexivity |].
        split; [exact S' |]. split; [exact T |].
        cbn [app]. constructor; [| exact F].
        rewrite Hs. now exists (current_text st).
    + destruct (IH (loop_body st (Punctuation c)) s) as [more [s' [O [S' [T F]]]]];
        auto.
      { cbn [loop_body current_text]. now rewrite truthy_append, Ht. }
      exists more, s'. repeat split; auto.
    + apply IH; auto.
Qed.

Lemma fold_same_names (items : list item) :
  forall st,
    speaker_label st = current_speaker st ->
    (exists s, current_speaker st = Some s) ->
    speaker_label (fold_left loop_body items st)
    = current_speaker (fold_left loop_body items st).
Proof.
  induction items as [| it rest IH]; intros st E [s Hs]; [exact E |].
  cbn [fold_left]. apply IH.
  - destruct it as [c l | c | t]; cbn [loop_body]; auto.
    destruct (str_ne l (current_speaker st)) eqn:N; cbn; auto.
    rewrite Hs in N |- *. unfold str_ne in N.
    destruct (String.eqb_spec l s); [now subst | discriminate].
  - destruct it as [c l | c | t]; cbn [loop_body]; eauto.
    destruct (str_ne l (current_speaker st)); cbn; eauto.
Qed.

(** X8.  With non-empty words and no punctuation ahead of the first word,
    the lines of the transcript are, in order, one line for each run of
    consecutive pronunciation items of one speaker, and each line starts
    with the label of its run, a colon and a space. *)
Theorem lines_follow_speaker_runs (items : list item) :
  words_nonempty items ->
  no_leading_punctuation items = true ->
  exists st,
    convert_items items = Return st
    /\ Forall2 attributed (output st) (run_labels (speakers items)).
Proof.
  unfold convert_items, loop.
  induction items as [| it rest IH]; intros W P.
  - exists initial. split; [reflexivity | constructor].
  - destruct it as [c l | c | t]; cbn [fold_left speakers].
    + assert (Hc : truthy c = true).
      { apply truthy_nonempty. apply (W c l). now left. }
      rewrite first_word.
      match goal with
      | |- context [fold_left loop_body rest ?st1] =>
          destruct (@fold_attributed rest st1 l eq_refl Hc
                      (words_nonempty_tail W))
            as [more [s' [O [S' [T F]]]]];
          pose proof (@fold_same_names rest st1 eq_refl
                        (ex_intro _ l eq_refl)) as E;
          set (st2 := fold_left loop_body rest st1) in *
      end.
      cbn [output app] in O.
      unfold final_line. rewrite T, E, S'.
      eexists. split; [reflexivity |].
      cbn [output]. rewrite O. exact F.
    + discriminate.
    + apply IH; [eapply words_nonempty_tail, W | exact P].
Qed.

Lemma lines_follow_speaker_runs_witness :
  words_nonempty hello_world
  /\ no_leading_punctuation hello_world = true
  /\ exists st,
       convert_items hello_world = Return st
       /\ Forall2 attributed (output st) (run_labels (speakers hello_world)).
Proof.
  split; [exact hello_world_words |]. split; [reflexivity |].
  apply (@lines_follow_speaker_runs hello_world);
    [exact hello_world_words | reflexivity].
Defined.

Lemma loop_body_names (st : locals) (it : item) :
  speaker_label st = None \/ speaker_label st = current_speaker st ->
  speaker_label (loop_body st it) = None
  \/ speaker_label (loop_body st it) = current_speaker (loop_body st it).
Proof.
  intros H. destruct it as [c l | c | t]; cbn [loop_body]; auto.
  right. destruct (str_ne l (current_speaker st)) eqn:N; cbn; auto.
  unfold str_ne in N. destruct (current_speaker st) as [s |]; [| discriminate].
  destruct (String.eqb_spec l s); [now subst | discriminate].
Qed.

(** X9.  The name [speaker_label], read after the loop, never disagrees
    with [current_speaker]: either it is still unbound, or the two hold the
    same label.  The last line is the one [current_speaker] would give. *)
Theorem speaker_label_is_current_speaker (items : list item) :
  speaker_label (loop items) = None
  \/ speaker_label (loop items) = current_speaker (loop items).
Proof.
  unfold loop.
  assert (G : forall st,
             speaker_label st = None \/ speaker_label st = current_speaker st ->
             speaker_label (fold_left loop_body items st) = None
             \/ speaker_label (fold_left loop_body items st)
                = current_speaker (fold_left loop_body items st)).
  { induction items as [| it rest IH]; intros st H; [exact H |].
    cbn [fold_left]. apply IH, loop_body_names, H. }
  apply G. now left.
Qed.

End Attribution.
